(** * Form relay (src/main.py): HTTP front door, TCP relay, record store

    A shallow embedding of [src/main.py].  Python [bytes] are lists of
    [byte], Python [str] values are lists of Unicode code points, the
    [dict] built by [save_data] is a finite map, and every call that
    touches the outside world (sockets, the MongoDB driver, the clock,
    logging, the HTTP response) is an entry of an event trace whose
    outcome is supplied by an explicit world description. *)

From Stdlib Require Import NArith ZArith Strings.String Strings.Ascii Strings.Byte.
From stdpp Require Import base list gmap.

Open Scope N_scope.

(** ** Python values *)

Abbreviation bytes := (list byte).
Abbreviation str := (list N).

(** An ASCII literal as a [str] or as [bytes]. *)
Definition ustr (s : string) : str :=
  List.map (fun c => N_of_ascii c) (list_ascii_of_string s).
Definition bstr (s : string) : bytes := list_byte_of_string s.

(** Exceptions raised along the modelled paths.  [UnicodeDecodeError] is a
    subclass of [ValueError]; all of them are subclasses of [Exception]. *)
Inductive exn : Type :=
  | UnicodeDecodeError
  | ValueError_not_enough (got : nat)   (* not enough values to unpack (expected 2, got n) *)
  | ValueError_too_many                 (* too many values to unpack (expected 2) *)
  | ValueError_int                      (* invalid literal for int() *)
  | TypeError_int_none                  (* int() argument must be ..., not 'NoneType' *)
  | TypeError_not_callable              (* to_thread applied to a non-callable *)
  | PyMongoError
  | OSError
  | FileNotFoundError
  | OverflowError                       (* cannot fit 'int' into an index-sized integer; byte string is too large *)
  | MemoryError
  | ValueError_read_length.             (* read length must be non-negative or -1 *)

Definition is_ValueError (e : exn) : bool :=
  match e with
  | UnicodeDecodeError | ValueError_not_enough _ | ValueError_too_many
  | ValueError_int | ValueError_read_length => true
  | _ => false
  end.

(** ** [str.split(sep)] with a one-character separator *)

Section Split.
Context {A : Type} `{EqDecision A}.

Fixpoint py_split (sep : A) (s : list A) : list (list A) :=
  match s with
  | [] => [[]]
  | c :: r =>
      if decide (c = sep) then [] :: py_split sep r
      else match py_split sep r with
           | seg :: segs => (c :: seg) :: segs
           | [] => [[c]]
           end
  end.

(** [sep.join(parts)] *)
Fixpoint py_join (sep : A) (parts : list (list A)) : list A :=
  match parts with
  | [] => []
  | [p] => p
  | p :: ps => p ++ sep :: py_join sep ps
  end.

(** [s.replace(a, c)] for single characters *)
Definition py_replace (a c : A) (s : list A) : list A :=
  List.map (fun x => if decide (x = a) then c else x) s.
End Split.

(** ** UTF-8: [bytes.decode] with [errors='strict'] or [errors='replace'] *)

(** Decoder state: between characters, or inside a multi-byte sequence with
    [need] continuation bytes still to come, the bits collected so far, and
    the range the next byte must lie in. *)
Inductive utf8_state : Type :=
  | UStart
  | UExpect (need : nat) (acc : N) (lo hi : N).

Definition REPLACEMENT : N := 0xFFFD.

(** What a byte means at the start of a character: a code point, the
    opening of a sequence, or an invalid start byte. *)
Definition utf8_lead (x : N) : option (list N * utf8_state) :=
  if x <? 0x80 then Some ([x], UStart)
  else if x <? 0xC2 then None
  else if x <? 0xE0 then Some ([], UExpect 1 (N.land x 0x1F) 0x80 0xBF)
  else if x =? 0xE0 then Some ([], UExpect 2 (N.land x 0x0F) 0xA0 0xBF)
  else if x =? 0xED then Some ([], UExpect 2 (N.land x 0x0F) 0x80 0x9F)
  else if x <? 0xF0 then Some ([], UExpect 2 (N.land x 0x0F) 0x80 0xBF)
  else if x =? 0xF0 then Some ([], UExpect 3 (N.land x 0x07) 0x90 0xBF)
  else if x <? 0xF4 then Some ([], UExpect 3 (N.land x 0x07) 0x80 0xBF)
  else if x =? 0xF4 then Some ([], UExpect 3 (N.land x 0x07) 0x80 0x8F)
  else None.

(** One byte: the code points it completes, the next state, and whether
    it uncovered an error. *)
Definition utf8_step (st : utf8_state) (x : N) : list N * utf8_state * bool :=
  let restart (pre : list N) (bad : bool) :=
    match utf8_lead x with
    | Some (out, st') => (pre ++ out, st', bad)
    | None => (pre ++ [REPLACEMENT], UStart, true)
    end in
  match st with
  | UStart => restart [] false
  | UExpect need acc lo hi =>
      if (lo <=? x) && (x <=? hi) then
        let acc' := N.lor (N.shiftl acc 6) (N.land x 0x3F) in
        match need with
        | S (S n) => ([], UExpect (S n) acc' 0x80 0xBF, false)
        | _ => ([acc'], UStart, false)
        end
      else restart [REPLACEMENT] true
  end.

Fixpoint utf8_scan (st : utf8_state) (bs : bytes) : list N * bool :=
  match bs with
  | [] => match st with
          | UStart => ([], false)
          | UExpect _ _ _ _ => ([REPLACEMENT], true)
          end
  | x :: r =>
      let '(out, st', bad) := utf8_step st (Byte.to_N x) in
      let '(rest, bad') := utf8_scan st' r in
      (out ++ rest, bad || bad')
  end.

(** [data.decode()] *)
Definition bytes_decode (data : bytes) : exn + str :=
  let '(s, bad) := utf8_scan UStart data in
  if bad then inl UnicodeDecodeError else inr s.

(** [data.decode('utf-8', 'replace')] *)
Definition bytes_decode_replace (data : bytes) : str :=
  fst (utf8_scan UStart data).

(** ** [urllib.parse.unquote_plus] *)

Definition hex_value (c : N) : option N :=
  if (48 <=? c) && (c <=? 57) then Some (c - 48)
  else if (65 <=? c) && (c <=? 70) then Some (c - 55)
  else if (97 <=? c) && (c <=? 102) then Some (c - 87)
  else None.

Definition byte_of_N (n : N) : byte :=
  match Byte.of_N n with Some x => x | None => x00 end.

(** One [item] of [string.split(b'%')[1:]]: two leading hex digits become
    a byte, anything else keeps its percent sign. *)
Definition unquote_item (item : list N) : bytes :=
  match item with
  | h :: l :: rest =>
      match hex_value h, hex_value l with
      | Some hv, Some lv => byte_of_N (16 * hv + lv) :: List.map byte_of_N rest
      | _, _ => byte_of_N 37 :: List.map byte_of_N item
      end
  | _ => byte_of_N 37 :: List.map byte_of_N item
  end.

(** [_unquote_impl] on an ASCII run *)
Definition unquote_to_bytes (run : list N) : bytes :=
  match py_split 37 run with
  | [] => []
  | first :: items => List.map byte_of_N first ++ List.concat (List.map unquote_item items)
  end.

Definition unquote_run (run : list N) : str :=
  match run with
  | [] => []
  | _ => bytes_decode_replace (unquote_to_bytes run)
  end.

(** The maximal ASCII runs are unquoted, everything else is kept. *)
Fixpoint unquote_parts (run : list N) (s : str) : str :=
  match s with
  | [] => unquote_run run
  | c :: r =>
      if c <? 0x80 then unquote_parts (run ++ [c]) r
      else unquote_run run ++ c :: unquote_parts [] r
  end.

Definition unquote (s : str) : str :=
  if decide (37 ∈ s) then unquote_parts [] s else s.

Definition unquote_plus (s : str) : str :=
  unquote (py_replace 43 32 s).

(** ** The record codec of [save_data]

    [{key: value for key, value in [el.split('=') for el in
    data_parse.split('&')]}]: every part must unpack into exactly two
    values; a later binding of a key replaces the earlier one. *)

Definition unpack2 (parts : list str) : exn + (str * str) :=
  match parts with
  | [k; v] => inr (k, v)
  | [] => inl (ValueError_not_enough 0)
  | [_] => inl (ValueError_not_enough 1)
  | _ => inl ValueError_too_many
  end.

Fixpoint dict_comprehension (d : gmap str str) (els : list (list str))
  : exn + gmap str str :=
  match els with
  | [] => inr d
  | parts :: rest =>
      match unpack2 parts with
      | inl e => inl e
      | inr (k, v) => dict_comprehension (<[k := v]> d) rest
      end
  end.

(** The text that is split: [urllib.parse.unquote_plus(data.decode())]. *)
Definition data_parse (data : bytes) : exn + str :=
  match bytes_decode data with
  | inl e => inl e
  | inr s => inr (unquote_plus s)
  end.

Definition parse_text (text : str) : exn + gmap str str :=
  dict_comprehension ∅ (List.map (py_split 61) (py_split 38 text)).

Definition decode (data : bytes) : exn + gmap str str :=
  match data_parse data with
  | inl e => inl e
  | inr text => parse_text text
  end.

(** ** Event traces and the effect monad

    Every call into the outside world appends one event; a computation
    either returns a value or raises. *)

Inductive recv_result : Type :=
  | RecvBytes (data : bytes)     (* what the peer has sent; empty once it has closed *)
  | RecvRaises.                  (* the read fails with a socket error *)

Inductive log_msg : Type :=
  | ParsingError (e : exn)           (* Parsing error: {e} *)
  | UnexpectedSaving (e : exn)       (* Unexpected error while data saving: {e} *)
  | DatabaseConnectionClosed         (* Database connection closed *)
  | UnexpectedReceive (e : exn)      (* Unexpected error on socket server receive: {e} *)
  | UnexpectedClientSend.            (* Unexpected error on socket client send *)

Inductive printed : Type :=
  | ConnectionEstablished
  | DataReceived (received : bytes)
  | SocketConnectionClosed
  | ResponseData (response : str)
  | DataTransferCompleted.

Inductive event : Type :=
  | EvMongoClient                                   (* MongoClient(uri, ...) *)
  | EvInsertOne (doc : gmap str str) (ok : bool)    (* db.messages.insert_one(doc) *)
  | EvClientClose                                   (* client.close() *)
  | EvLogError (m : log_msg)
  | EvLogInfo (m : log_msg)
  | EvPrint (p : printed)
  | EvSocket (ok : bool)                            (* socket.socket(...) *)
  | EvConnect (ip : string) (port : N) (ok : bool)  (* sock.connect(server) *)
  | EvRecv (bufsize : nat) (r : exn + bytes)        (* sock.recv(bufsize) *)
  | EvSend (data : bytes) (ok : bool)               (* sock.send(data) *)
  | EvSockClose                                     (* sock.close() *)
  | EvRead (n : Z) (data : bytes)                   (* self.rfile.read(n) *)
  | EvSendResponse (status : N)
  | EvSendHeader (keyword value : string)
  | EvEndHeaders
  | EvWrite (data : bytes).                         (* self.wfile.write(data) *)

Definition M (A : Type) : Type := list event * (exn + A).

Definition trace {A} (m : M A) : list event := fst m.
Definition result {A} (m : M A) : exn + A := snd m.

Definition raise {A} (e : exn) : M A := ([], inl e).
Definition emit (ev : event) : M unit := ([ev], inr tt).
Definition lift {A} (r : exn + A) : M A := ([], r).

#[global] Instance M_ret : MRet M := fun A a => ([], inr a).
#[global] Instance M_bind : MBind M := fun A B k m =>
  match m with
  | (t, inl e) => (t, inl e)
  | (t, inr a) => let '(t', r) := k a in (t ++ t', r)
  end.

(** [try: m  except Exception as e: h e] *)
Definition try_except {A} (m : M A) (h : exn -> M A) : M A :=
  match m with
  | (t, inl e) => let '(t', r) := h e in (t ++ t', r)
  | (t, inr a) => (t, inr a)
  end.

(** [try: m  finally: f] *)
Definition try_finally {A} (m : M A) (f : M unit) : M A :=
  match m, f with
  | (t, r), (t', inr _) => (t ++ t', r)
  | (t, _), (t', inl e) => (t ++ t', inl e)
  end.

(** ** Sockets *)

(** [sock.recv(bufsize)]: at most [bufsize] of the bytes on offer. *)
Definition sock_recv (bufsize : nat) (r : recv_result) : M bytes :=
  match r with
  | RecvBytes data =>
      let received := take bufsize data in
      emit (EvRecv bufsize (inr received)) ;; mret received
  | RecvRaises => emit (EvRecv bufsize (inl OSError)) ;; raise OSError
  end.

(** [sock.send(data)]: the event records the bytes handed to the call. *)
Definition sock_send (ok : bool) (data : bytes) : M unit :=
  emit (EvSend data ok) ;; if ok then mret tt else raise OSError.

(** ** [save_data]

    The world of one call: whether [insert_one] goes through, and what
    [str(datetime.now())] reads.  [MongoClient(...)] connects lazily and so
    does not fail; an unreachable backend shows at [insert_one]. *)
Record db_world : Type := { insert_ok : bool; now : str }.

Definition insert_one (w : db_world) (doc : gmap str str) : M unit :=
  emit (EvInsertOne doc (insert_ok w)) ;;
  if insert_ok w then mret tt else raise PyMongoError.

(** [asyncio.to_thread(x)] awaited on the value [insert_one] returned, which
    is not callable. *)
Definition to_thread_result : M unit := raise TypeError_not_callable.

Definition save_data (w : db_world) (data : bytes) : M unit :=
  try_finally
    (try_except
       (emit EvMongoClient ;;
        data_parse ← lift (data_parse data) ;
        data_dict ← lift (parse_text data_parse) ;
        let data_dict := <[ustr "date" := now w]> data_dict in
        insert_one w data_dict ;;
        to_thread_result)
       (fun e =>
          if is_ValueError e then emit (EvLogError (ParsingError e))
          else emit (EvLogError (UnexpectedSaving e))))
    (emit (EvLogInfo DatabaseConnectionClosed) ;; emit EvClientClose).

(** The records that reached the store. *)
Definition persisted (t : list event) : list (gmap str str) :=
  omap (fun ev => match ev with EvInsertOne doc true => Some doc | _ => None end) t.

Definition insert_attempts (t : list event) : list (gmap str str) :=
  omap (fun ev => match ev with EvInsertOne doc _ => Some doc | _ => None end) t.

Definition logged_errors (t : list event) : list log_msg :=
  omap (fun ev => match ev with EvLogError m => Some m | _ => None end) t.

(** ** [handle]

    One entry per iteration of the receive loop: what [recv] yields, the
    world [save_data] runs in, and whether the echo goes out.  When the
    entries run out the peer has closed. *)
Record round : Type :=
  { r_recv : recv_result; r_db : db_world; r_send_ok : bool }.

Fixpoint recv_loop (script : list round) : M unit :=
  match script with
  | [] => _ ← sock_recv 1024 (RecvBytes []) ; mret tt
  | r :: rest =>
      received ← sock_recv 1024 (r_recv r) ;
      match received with
      | [] => mret tt
      | _ =>
          save_data (r_db r) received ;;
          emit (EvPrint (DataReceived received)) ;;
          sock_send (r_send_ok r) received ;;
          recv_loop rest
      end
  end.

Definition handle (script : list round) : M unit :=
  try_finally
    (try_except
       (emit (EvPrint ConnectionEstablished) ;;
        recv_loop script ;;
        emit (EvPrint SocketConnectionClosed))
       (fun e => emit (EvLogError (UnexpectedReceive e))))
    (emit EvSockClose).

(** ** [send_data_to_socket] *)

Definition TCP_IP : string := "127.0.0.1".
Definition TCP_PORT : N := 5000.
Definition hppt_folder : string := "src".

Record relay_world : Type :=
  { socket_ok : bool; connect_ok : bool; send_ok : bool; recv_res : recv_result }.

Definition send_data_to_socket (w : relay_world) (data : bytes) : M unit :=
  try_except
    (emit (EvSocket (socket_ok w)) ;;
     (if socket_ok w then mret tt else raise OSError) ;;
     emit (EvConnect TCP_IP TCP_PORT (connect_ok w)) ;;
     (if connect_ok w then mret tt else raise OSError) ;;
     emit (EvPrint ConnectionEstablished) ;;
     sock_send (send_ok w) data ;;
     response ← sock_recv 1024 (recv_res w) ;
     text ← lift (bytes_decode response) ;
     emit (EvPrint (ResponseData text)) ;;
     emit (EvPrint DataTransferCompleted))
    (fun e => emit (EvLogError UnexpectedClientSend)).

(** ** [HttpHandler.do_POST] *)

Record request : Type :=
  { req_path : string;
    req_headers : list (string * string);
    req_body : bytes }.

Definition ascii_lower (c : ascii) : ascii :=
  let n := nat_of_ascii c in
  if (65 <=? n)%nat && (n <=? 90)%nat then ascii_of_nat (n + 32) else c.

Fixpoint lower (s : string) : string :=
  match s with
  | EmptyString => EmptyString
  | String c r => String (ascii_lower c) (lower r)
  end.

(** [self.headers[name]]: first header of that name, case-insensitively;
    [None] when there is none. *)
Fixpoint headers_get (name : string) (hs : list (string * string)) : option string :=
  match hs with
  | [] => None
  | (k, v) :: rest =>
      if String.eqb (lower k) (lower name) then Some v else headers_get name rest
  end.

(** The white space [int] strips from a header value, whose characters
    are those of ISO-8859-1: space, tab to carriage return, U+0085 and
    U+00A0. *)
Definition is_space (c : ascii) : bool :=
  let n := nat_of_ascii c in
  (n =? 32)%nat || ((9 <=? n)%nat && (n <=? 13)%nat)
  || (n =? 133)%nat || (n =? 160)%nat.

Fixpoint lstrip (cs : list ascii) : list ascii :=
  match cs with
  | c :: r => if is_space c then lstrip r else cs
  | [] => []
  end.

Definition strip (cs : list ascii) : list ascii :=
  rev (lstrip (rev (lstrip cs))).

Definition digit_value (c : ascii) : option Z :=
  let n := nat_of_ascii c in
  if (48 <=? n)%nat && (n <=? 57)%nat then Some (Z.of_nat n - 48)%Z else None.

(** Decimal digits, single underscores allowed between digits. *)
Fixpoint int_digits (after_digit : bool) (acc : Z) (cs : list ascii) : option Z :=
  match cs with
  | [] => if after_digit then Some acc else None
  | c :: r =>
      match digit_value c with
      | Some d => int_digits true (10 * acc + d)%Z r
      | None =>
          if (nat_of_ascii c =? 95)%nat && after_digit then int_digits false acc r
          else None
      end
  end.

(** The default of [sys.get_int_max_str_digits()]: a literal with more
    digits is refused. *)
Definition INT_MAX_STR_DIGITS : nat := 4300.

Definition count_digits (cs : list ascii) : nat :=
  length (List.filter (fun c => match digit_value c with
                                | Some _ => true
                                | None => false
                                end) cs).

(** [int(x)] for a header value *)
Definition py_int (x : option string) : exn + Z :=
  match x with
  | None => inl TypeError_int_none
  | Some s =>
      let literal := strip (list_ascii_of_string s) in
      let parsed :=
        match literal with
        | c :: r =>
            if (nat_of_ascii c =? 45)%nat then Z.opp <$> int_digits false 0%Z r
            else if (nat_of_ascii c =? 43)%nat then int_digits false 0%Z r
            else int_digits false 0%Z (c :: r)
        | [] => None
        end in
      match parsed with
      | Some n =>
          if (INT_MAX_STR_DIGITS <? count_digits literal)%nat
          then inl ValueError_int else inr n
      | None => inl ValueError_int
      end
  end.

(** The largest index-sized integer of a 64-bit build, and the header of
    a [bytes] object that has to fit beside its content. *)
Definition PY_SSIZE_T_MAX : Z := 2 ^ 63 - 1.
Definition BYTES_OVERHEAD : Z := 33.

(** [self.rfile.read(n)] on the buffered reader of the connection, whose
    content up to end of file is [body].  The length must be index-sized
    and at least -1; -1 reads everything; otherwise a result of [n] bytes
    is allocated, which fails for a size no [bytes] object can have and
    whenever the allocator refuses ([alloc_ok] is the world's answer);
    then up to [n] bytes of the body are returned. *)
Definition rfile_read (alloc_ok : bool) (n : Z) (body : bytes) : M bytes :=
  if (n <? - PY_SSIZE_T_MAX - 1)%Z || (PY_SSIZE_T_MAX <? n)%Z
  then raise OverflowError
  else if (n <? -1)%Z then raise ValueError_read_length
  else if (PY_SSIZE_T_MAX - BYTES_OVERHEAD <? n)%Z then raise OverflowError
  else if negb alloc_ok then raise MemoryError
  else
    let data := if (n =? -1)%Z then body else take (Z.to_nat n) body in
    emit (EvRead n data) ;; mret data.

Definition do_POST (w : relay_world) (alloc_ok : bool) (req : request) : M unit :=
  n ← lift (py_int (headers_get "Content-Length" (req_headers req))) ;
  data ← rfile_read alloc_ok n (req_body req) ;
  send_data_to_socket w data ;;
  emit (EvSendResponse 302) ;;
  emit (EvSendHeader "Location" "/") ;;
  emit EvEndHeaders.

(** ** [HttpHandler.send_static] *)

(** [str(x)] of an optional string *)
Definition py_str (x : option string) : string :=
  match x with
  | Some s => s
  | None => "None"
  end.

(** Truth value of a tuple: its length is not zero. *)
Definition tuple_truthy {A : Type} (t : list A) : bool :=
  negb (Nat.eqb (length t) 0).

Section Static.
(** [mimetypes.guess_type(url)], a pair (type, encoding), and the files
    under the served root. *)
Variable guess_type : string -> option string * option string.
Variable read_file : string -> option bytes.

Definition send_static (path : string) : M unit :=
  emit (EvSendResponse 200) ;;
  let mt := guess_type path in
  (if tuple_truthy [mt.1; mt.2]
   then emit (EvSendHeader "Content-type" (py_str mt.1))
   else emit (EvSendHeader "Content-type" "text/plain")) ;;
  emit EvEndHeaders ;;
  match read_file ("./" ++ hppt_folder ++ path)%string with
  | Some content => emit (EvWrite content)
  | None => raise FileNotFoundError
  end.
End Static.

(** A fragment of the table [mimetypes] consults, keyed by the extension
    after the last dot of the path. *)
Fixpoint last_ext (cur : option string) (s : string) : option string :=
  match s with
  | EmptyString => cur
  | String c r =>
      if Ascii.eqb c "." then last_ext (Some r) r
      else if Ascii.eqb c "/" then last_ext None r
      else last_ext cur r
  end.

Definition guess_type_sample (path : string) : option string * option string :=
  match last_ext None path with
  | Some ext =>
      let e := lower ext in
      if String.eqb e "css" then (Some "text/css", None)
      else if String.eqb e "png" then (Some "image/png", None)
      else if String.eqb e "html" then (Some "text/html", None)
      else if String.eqb e "js" then (Some "text/javascript", None)
      else (None, None)
  | None => (None, None)
  end%string.

(** ** Vocabulary of the statements *)

(** What [save_data] does between opening and closing its client. *)
Definition save_outcome (w : db_world) (data : bytes) : list event :=
  match decode data with
  | inl e => [EvLogError (ParsingError e)]
  | inr fields =>
      [EvInsertOne (<[ustr "date" := now w]> fields) (insert_ok w);
       EvLogError (UnexpectedSaving
                     (if insert_ok w then TypeError_not_callable else PyMongoError))]
  end.

(** How [handle] ends after its loop. *)
Definition handle_ending (r : exn + unit) : list event :=
  match r with
  | inr _ => [EvPrint SocketConnectionClosed; EvSockClose]
  | inl e => [EvLogError (UnexpectedReceive e); EvSockClose]
  end.

Definition is_sock_io (ev : event) : bool :=
  match ev with
  | EvRecv _ _ | EvSend _ _ => true
  | _ => false
  end.

(** Number of [=] characters of a segment. *)
Definition count_eq (seg : str) : nat := length (filter (fun c => c = 61) seg).

(** The (key, value) pairs of a text all of whose segments unpack. *)
Definition pair_of (parts : list str) : str * str :=
  match parts with
  | [k; v] => (k, v)
  | _ => ([], [])
  end.

Definition text_pairs (text : str) : list (str * str) :=
  List.map (fun seg => pair_of (py_split 61 seg)) (py_split 38 text).

(** One served chunk: its receipt, the persistence attempt, the echo. *)
Definition round_events (w : db_world) (x : bytes) (ok : bool) : list event :=
  EvRecv 1024 (inr x) :: trace (save_data w x)
    ++ [EvPrint (DataReceived x); EvSend x ok].

#[global] Instance byte_eq_decision : EqDecision byte := byte_eq_dec.

(** Number of [=] bytes of a raw segment. *)
Definition count_eq_raw (seg : bytes) : nat := length (filter (fun c => c = x3d) seg).

(** The segment a (key, value) pair is written as. *)
Definition segment_of (kv : str * str) : str := kv.1 ++ 61 :: kv.2.
Definition raw_segment_of (kv : bytes * bytes) : bytes := kv.1 ++ x3d :: kv.2.

(** The two decoding properties read on the raw payload, before any
    percent-decoding: a raw segment without exactly one [=] makes the
    payload fail, and raw [key=value] fields joined by [&] decode to the
    percent-decoded fields. *)
Definition rejects_raw_malformed_segment : Prop :=
  forall (w : db_world) (data seg : bytes),
    seg ∈ py_split x26 data -> count_eq_raw seg <> 1%nat ->
    (exists e, decode data = inl e)
    /\ insert_attempts (trace (save_data w data)) = [].

Definition decodes_raw_fields : Prop :=
  forall (raw : list (bytes * bytes)) (kvs : list (str * str)),
    raw <> [] ->
    Forall (fun kv => (x26 ∉ kv.1) /\ (x3d ∉ kv.1) /\ (x26 ∉ kv.2) /\ (x3d ∉ kv.2)) raw ->
    Forall2 (fun r kv => data_parse r.1 = inr kv.1 /\ data_parse r.2 = inr kv.2)
            raw kvs ->
    NoDup kvs.*1 ->
    decode (py_join x26 (List.map raw_segment_of raw)) = inr (list_to_map kvs).



(** The lengths [rfile.read] accepts. *)
Definition readable_length (n : Z) : Prop :=
  (-1 <= n <= PY_SSIZE_T_MAX - BYTES_OVERHEAD)%Z.

(** ** [HttpHandler.send_html_file] and [HttpHandler.do_GET] *)

(** [s[1:]] *)
Definition drop_first (s : string) : string :=
  match s with
  | String _ r => r
  | EmptyString => EmptyString
  end.

Section Get.
(** [urllib.parse.urlparse(url).path], [mimetypes.guess_type],
    [pathlib.Path().joinpath(p).exists()] and the readable files. *)
Variable urlparse_path : string -> string.
Variable guess_type : string -> option string * option string.
Variable path_exists : string -> bool.
Variable read_file : string -> option bytes.

Definition send_html_file (filename : string) (status : N) : M unit :=
  emit (EvSendResponse status) ;;
  emit (EvSendHeader "Content-type" "text/html") ;;
  emit EvEndHeaders ;;
  match read_file ("./" ++ hppt_folder ++ "/" ++ filename)%string with
  | Some content => emit (EvWrite content)
  | None => raise FileNotFoundError
  end.

Definition do_GET (path : string) : M unit :=
  let pr_url := urlparse_path path in
  if String.eqb pr_url "/" then send_html_file "index.html" 200
  else if String.eqb pr_url "/message" then send_html_file "message.html" 200
  else if path_exists ("./" ++ hppt_folder ++ "/" ++ drop_first pr_url)%string
       then send_static guess_type read_file path
       else send_html_file "error.html" 404.
End Get.

(** [urlparse(url).path] for a request target in origin form: the
    fragment and the query are cut off, then the parameters of the last
    path segment. *)
Fixpoint cut_at (stop : ascii -> bool) (s : string) : string :=
  match s with
  | EmptyString => EmptyString
  | String c r => if stop c then EmptyString else String c (cut_at stop r)
  end.

(** The text up to the first [;] that follows the last [/]. *)
Fixpoint split_params (s : string) : string :=
  match s with
  | EmptyString => EmptyString
  | String c r =>
      if Ascii.eqb c ";"
      then (if existsb (Ascii.eqb "/") (list_ascii_of_string r)
            then String c (split_params r) else EmptyString)
      else String c (split_params r)
  end.

Definition urlparse_path_sample (url : string) : string :=
  split_params
    (cut_at (Ascii.eqb "?") (cut_at (Ascii.eqb "#") url)).

(** ** Server life cycles: [run_http_server] and [run_socket_server]

    [serve_forever] and the accept loop only end by an exception; the
    world says whether the listening socket could be set up, which
    connections arrive, and how the loop ends. *)
Inductive loop_end : Type :=
  | EndKeyboardInterrupt
  | EndException.

Inductive srv_exn : Type :=
  | KeyboardInterrupt
  | UnboundLocalError
  | SrvException.

Inductive srv_event : Type :=
  | SrvCreate (ok : bool)          (* server_class(server_address, handler_class) *)
  | SrvServeForever
  | SrvLogInfoShutdown             (* Shutdown server *)
  | SrvLogError                    (* Unexpected error on server run0: {e} *)
  | SrvServerClose                 (* http.server_close() *)
  | SrvSocketBind (ok : bool)      (* socket.socket(...); sock.bind(server) *)
  | SrvListen (backlog : nat)
  | SrvPrintStart                  (* Start socket server ... *)
  | SrvPoolEnter (workers : nat)   (* ThreadPoolExecutor(10).__enter__ *)
  | SrvAccept (conn : option nat)  (* sock.accept(); [None]: it raises *)
  | SrvSubmit (conn : nat)         (* client_pool.submit(handle, new_sock, address) *)
  | SrvPrintDestroy                (* Destroy server *)
  | SrvSockClose                   (* sock.close() *)
  | SrvPoolExit.                   (* the pool waits for its workers *)

Definition raised_by (ending : loop_end) : srv_exn :=
  match ending with
  | EndKeyboardInterrupt => KeyboardInterrupt
  | EndException => SrvException
  end.

(** The [try] body binds [http] when the constructor succeeds and then
    serves until an exception ends it; the [except] clauses pick the log
    line by the class of the exception; [finally] needs [http]. *)
Definition run_http_server (bind_ok : bool) (ending : loop_end)
  : list srv_event * option srv_exn :=
  let '(body, http_bound, raised) :=
    if bind_ok
    then ([SrvCreate true; SrvServeForever], true, raised_by ending)
    else ([SrvCreate false], false, SrvException) in
  let handler :=
    match raised with
    | KeyboardInterrupt => [SrvLogInfoShutdown]
    | _ => [SrvLogError]
    end in
  let '(final, res) :=
    if http_bound then ([SrvServerClose], None)
    else ([], Some UnboundLocalError) in
  (body ++ handler ++ final, res).

(** The accept loop: every accepted connection is submitted to the pool;
    the loop ends when [accept] raises. *)
Fixpoint accept_loop (conns : list nat) : list srv_event :=
  match conns with
  | [] => [SrvAccept None]
  | c :: rest => SrvAccept (Some c) :: SrvSubmit c :: accept_loop rest
  end.

(** [bind] is outside the [try]; only [KeyboardInterrupt] is caught;
    [finally] closes the listening socket, and leaving the [with] block
    waits for the pool. *)
Definition run_socket_server (bind_ok : bool) (conns : list nat)
    (ending : loop_end) : list srv_event * option srv_exn :=
  if bind_ok then
    let handler :=
      match raised_by ending with
      | KeyboardInterrupt => ([SrvPrintDestroy], None)
      | e => ([], Some e)
      end in
    ([SrvSocketBind true; SrvListen 10; SrvPrintStart; SrvPoolEnter 10]
       ++ accept_loop conns ++ handler.1 ++ [SrvSockClose; SrvPoolExit],
     handler.2)
  else ([SrvSocketBind false], Some SrvException).

(** ** Vocabulary of the further statements *)

Definition sent_chunks (t : list event) : list bytes :=
  omap (fun ev => match ev with EvSend d _ => Some d | _ => None end) t.

Definition received_chunks (t : list event) : list bytes :=
  omap (fun ev => match ev with
                  | EvRecv _ (inr (c :: x)) => Some (c :: x)
                  | _ => None
                  end) t.

Definition count_event (P : event -> bool) (t : list event) : nat :=
  length (List.filter P t).

Definition is_client_open (ev : event) : bool :=
  match ev with EvMongoClient => true | _ => false end.
Definition is_client_close (ev : event) : bool :=
  match ev with EvClientClose => true | _ => false end.
Definition is_sock_close (ev : event) : bool :=
  match ev with EvSockClose => true | _ => false end.
Definition is_send (ev : event) : bool :=
  match ev with EvSend _ _ => true | _ => false end.
Definition is_status (ev : event) : bool :=
  match ev with EvSendResponse _ => true | _ => false end.

(** A round after which [handle] leaves its loop: the read fails or is
    empty, or the echo fails. *)
Definition round_stops (r : round) : Prop :=
  r_recv r = RecvRaises
  \/ (exists data, r_recv r = RecvBytes data /\ take 1024 data = [])
  \/ r_send_ok r = false.

(** A payload of ASCII bytes without percent signs. *)
Definition plain (data : bytes) : Prop :=
  Forall (fun x => Byte.to_N x < 128) data /\ x25 ∉ data.

(** The code point a byte of a plain payload is decoded to. *)
Definition plain_char (x : byte) : N :=
  if decide (Byte.to_N x = 43) then 32 else Byte.to_N x.

(** The events the receive loop itself can produce. *)
Definition loop_event (ev : event) : bool :=
  match ev with
  | EvRecv _ _ | EvSend _ _ | EvPrint (DataReceived _)
  | EvMongoClient | EvInsertOne _ _ | EvClientClose
  | EvLogError (ParsingError _) | EvLogError (UnexpectedSaving _)
  | EvLogInfo DatabaseConnectionClosed => true
  | _ => false
  end.

(** Bound on the chunks a trace receives and sends. *)
Definition chunk_within (n : nat) (ev : event) : Prop :=
  match ev with
  | EvRecv bufsize (inr x) => bufsize = n /\ (length x <= n)%nat
  | EvRecv bufsize (inl _) => bufsize = n
  | EvSend x _ => (0 < length x <= n)%nat
  | _ => True
  end.

Definition submitted (t : list srv_event) : list nat :=
  omap (fun ev => match ev with SrvSubmit c => Some c | _ => None end) t.

Definition is_srv_sock_close (ev : srv_event) : bool :=
  match ev with SrvSockClose => true | _ => false end.

Definition is_recv (ev : event) : bool :=
  match ev with EvRecv _ _ => true | _ => false end.

Definition b2n (b : bool) : nat := if b then 1%nat else 0%nat.

(** * Properties *)

Example decode_alice :
  decode (bstr "name=Alice&msg=Hi%20there")
  = inr (<[ustr "msg" := ustr "Hi there"]> (<[ustr "name" := ustr "Alice"]> ∅)).
Proof. vm_compute. reflexivity. Qed.

Example decode_plus : decode (bstr "a=x+y") = inr {[ ustr "a" := ustr "x y" ]}.
Proof. vm_compute. reflexivity. Qed.

Example decode_badpair : decode (bstr "badpair") = inl (ValueError_not_enough 1).
Proof. vm_compute. reflexivity. Qed.

Example decode_utf8 :
  bytes_decode [xe2; x82; xac] = inr [0x20AC]
  /\ bytes_decode [xe2; x82] = inl UnicodeDecodeError
  /\ bytes_decode_replace [xe2; x82; x41] = [REPLACEMENT; 0x41]
  /\ bytes_decode_replace [xf0; x80; x80] = [REPLACEMENT; REPLACEMENT; REPLACEMENT]
  /\ bytes_decode_replace [xf0; x9f; x98; x80] = [0x1F600]
  /\ unquote_plus (ustr "%E2%82%AC+%4%41%zz") = [0x20AC; 32; 37; 52; 65; 37; 122; 122].
Proof. vm_compute. repeat split; reflexivity. Qed.

(** ** Lists *)

Lemma app_eq_split_l {A} (xs ys l1 l2 : list A) (e : A) :
  xs ++ ys = l1 ++ e :: l2 -> e ∉ xs ->
  exists l1', l1 = xs ++ l1' /\ ys = l1' ++ e :: l2.
Proof.
  intros Heq Hnot. apply app_eq_inv in Heq as [[k [-> Hk]] | [k [-> Hk]]].
  - destruct k as [|e' k].
    + exists []. rewrite !app_nil_r. done.
    + simplify_eq/=. exfalso. apply Hnot. set_solver.
  - by exists k.
Qed.

Lemma app_eq_split_r {A} (xs ys l1 l2 : list A) (e : A) :
  xs ++ ys = l1 ++ e :: l2 -> e ∉ ys ->
  exists l2', l2 = l2' ++ ys /\ xs = l1 ++ e :: l2'.
Proof.
  intros Heq Hnot. apply app_eq_inv in Heq as [[k [-> Hk]] | [k [-> Hk]]].
  - destruct k as [|e' k]; simplify_eq/=.
    + exfalso. apply Hnot. set_solver.
    + by exists k.
  - exfalso. apply Hnot. set_solver.
Qed.

(** ** The codec *)

Lemma dict_comprehension_error d els e :
  dict_comprehension d els = inl e -> is_ValueError e = true.
Proof.
  revert d. induction els as [|parts rest IH]; intros d; simpl; [done|].
  destruct (unpack2 parts) as [e'|[k v]] eqn:Hu; [|by apply IH].
  intros [= <-]. unfold unpack2 in Hu.
  repeat (case_match; simplify_eq/=); done.
Qed.

Lemma decode_error data e : decode data = inl e -> is_ValueError e = true.
Proof.
  unfold decode, data_parse, bytes_decode.
  destruct (utf8_scan UStart data) as [s [|]]; simpl.
  - by intros [= <-].
  - apply dict_comprehension_error.
Qed.

(** ** [save_data] *)

Lemma save_data_eq w data :
  save_data w data
  = (EvMongoClient :: save_outcome w data
       ++ [EvLogInfo DatabaseConnectionClosed; EvClientClose], inr tt).
Proof.
  unfold save_data, save_outcome. pose proof (decode_error data) as Herr.
  unfold decode in *.
  destruct (data_parse data) as [e|text]; simpl.
  - rewrite (Herr e eq_refl). done.
  - destruct (parse_text text) as [e|fields]; simpl.
    + rewrite (Herr e eq_refl). done.
    + unfold insert_one. destruct (insert_ok w); done.
Qed.

Lemma save_data_no_sock_io w data ev :
  ev ∈ trace (save_data w data) -> is_sock_io ev = false.
Proof.
  rewrite save_data_eq. unfold save_outcome, trace. simpl.
  destruct (decode data); simpl; intros Hin;
    repeat (apply elem_of_cons in Hin as [-> | Hin]; [done|]);
    by apply elem_of_nil in Hin.
Qed.

(** ** The receive loop *)

Lemma recv_loop_nil : recv_loop [] = ([EvRecv 1024 (inr [])], inr tt).
Proof. reflexivity. Qed.

Lemma recv_loop_raises r rest :
  r_recv r = RecvRaises ->
  recv_loop (r :: rest) = ([EvRecv 1024 (inl OSError)], inl OSError).
Proof. intros H. simpl. rewrite H. reflexivity. Qed.

Lemma recv_loop_eof r rest data :
  r_recv r = RecvBytes data -> take 1024 data = [] ->
  recv_loop (r :: rest) = ([EvRecv 1024 (inr [])], inr tt).
Proof. intros H Ht. simpl. rewrite H. simpl. rewrite Ht. reflexivity. Qed.

Lemma recv_loop_chunk r rest data :
  r_recv r = RecvBytes data -> take 1024 data <> [] ->
  recv_loop (r :: rest)
  = (round_events (r_db r) (take 1024 data) (r_send_ok r)
       ++ (if r_send_ok r then trace (recv_loop rest) else []),
     if r_send_ok r then result (recv_loop rest) else inl OSError).
Proof.
  intros H Ht. cbn [recv_loop]. rewrite H. unfold round_events.
  cbn [sock_recv]. destruct (take 1024 data) as [|c x] eqn:E; [done|].
  unfold mbind, M_bind, emit, mret, M_ret, sock_send. cbn [trace fst].
  rewrite (save_data_eq (r_db r) (c :: x)). cbn [fst snd].
  destruct (r_send_ok r); destruct (recv_loop rest) as [t res];
    cbn; rewrite <- ?app_assoc; cbn; rewrite ?app_nil_r; reflexivity.
Qed.

Lemma handle_eq script :
  handle script
  = (EvPrint ConnectionEstablished :: trace (recv_loop script)
       ++ handle_ending (result (recv_loop script)), inr tt).
Proof.
  unfold handle. destruct (recv_loop script) as [t [e|[]]]; cbn;
    rewrite ?app_nil_r, <- ?app_assoc; reflexivity.
Qed.

Lemma sock_io_not_in_save ev w x :
  is_sock_io ev = true -> ev ∉ trace (save_data w x).
Proof. intros Hio Hin. apply save_data_no_sock_io in Hin. congruence. Qed.

Lemma recv_loop_after_recv script : forall t1 x t2,
  trace (recv_loop script) = t1 ++ EvRecv 1024 (inr x) :: t2 -> x <> [] ->
  exists w ok t3,
    t2 = trace (save_data w x) ++ EvPrint (DataReceived x) :: EvSend x ok :: t3.
Proof.
  induction script as [|r rest IH]; intros t1 x t2 Heq Hx.
  - rewrite recv_loop_nil in Heq. destruct t1 as [|? [|? ?]]; simplify_eq/=.
  - destruct (r_recv r) as [data|] eqn:Hr.
    + destruct (take 1024 data) as [|c l] eqn:Ht.
      * rewrite (recv_loop_eof _ _ _ Hr Ht) in Heq.
        destruct t1 as [|? [|? ?]]; simplify_eq/=.
      * rewrite (recv_loop_chunk _ _ _ Hr) in Heq by (rewrite Ht; done).
        rewrite Ht in Heq. unfold round_events in Heq. cbn [trace fst] in Heq.
        destruct t1 as [|e1 t1]; cbn in Heq; injection Heq as He1 Heq.
        { simplify_eq. exists (r_db r), (r_send_ok r).
          eexists. rewrite <- app_assoc. reflexivity. }
        apply app_eq_split_l in Heq as (l1' & -> & Htail).
        2:{ intros Hin. apply elem_of_app in Hin as [Hin | Hin].
            - by apply sock_io_not_in_save in Hin.
            - repeat (apply elem_of_cons in Hin as [? | Hin]; [done|]).
              by apply elem_of_nil in Hin. }
        destruct (r_send_ok r).
        -- by eapply IH.
        -- destruct l1'; done.
    + rewrite (recv_loop_raises _ _ Hr) in Heq.
      destruct t1 as [|? [|? ?]]; simplify_eq/=.
Qed.

Lemma recv_loop_before_send script : forall t1 y ok t2,
  trace (recv_loop script) = t1 ++ EvSend y ok :: t2 ->
  exists t0 w,
    t1 = t0 ++ EvRecv 1024 (inr y) :: trace (save_data w y)
           ++ [EvPrint (DataReceived y)]
    /\ y <> [].
Proof.
  induction script as [|r rest IH]; intros t1 y ok t2 Heq.
  - rewrite recv_loop_nil in Heq. destruct t1 as [|? [|? ?]]; simplify_eq/=.
  - destruct (r_recv r) as [data|] eqn:Hr.
    + destruct (take 1024 data) as [|c l] eqn:Ht.
      * rewrite (recv_loop_eof _ _ _ Hr Ht) in Heq.
        destruct t1 as [|? [|? ?]]; simplify_eq/=.
      * rewrite (recv_loop_chunk _ _ _ Hr) in Heq by (rewrite Ht; done).
        rewrite Ht in Heq. unfold round_events in Heq. cbn [trace fst] in Heq.
        assert (Hshape : forall (s : list event) p e tl,
                   (EvRecv 1024 (inr (c :: l)) :: s ++ [p; e]) ++ tl
                   = (EvRecv 1024 (inr (c :: l)) :: s ++ [p]) ++ e :: tl).
        { intros s p e tl. cbn. by rewrite <- !app_assoc. }
        rewrite Hshape in Heq. clear Hshape.
        apply app_eq_split_l in Heq as (l1' & -> & Htail).
        2:{ intros Hin. apply elem_of_cons in Hin as [? | Hin]; [done|].
            apply elem_of_app in Hin as [Hin | Hin].
            - by apply sock_io_not_in_save in Hin.
            - apply elem_of_cons in Hin as [? | Hin]; [done|].
              by apply elem_of_nil in Hin. }
        destruct l1' as [|e1 l1']; cbn in Htail; injection Htail as He1 Htail.
        { simplify_eq. exists [], (r_db r).
          rewrite app_nil_r. done. }
        destruct (r_send_ok r); [|destruct l1'; done].
        apply IH in Htail as (t0 & w & -> & Hy).
        exists ((EvRecv 1024 (inr (c :: l))
                   :: (save_data (r_db r) (c :: l)).1
                      ++ [EvPrint (DataReceived (c :: l))])
                  ++ e1 :: t0), w.
        split; [|done]. by rewrite <- !app_assoc.
    + rewrite (recv_loop_raises _ _ Hr) in Heq.
      destruct t1 as [|? [|? ?]]; simplify_eq/=.
Qed.

(** ** Splitting and the dict comprehension *)

Lemma py_split_length {A} `{EqDecision A} (sep : A) (s : list A) :
  length (py_split sep s) = S (length (filter (fun c => c = sep) s)).
Proof.
  induction s as [|c r IH]; [done|]. cbn [py_split].
  destruct (decide (c = sep)) as [Hc|Hc].
  - rewrite filter_cons_True by done. cbn. by rewrite IH.
  - rewrite filter_cons_False by done.
    destruct (py_split sep r); cbn in *; [done|]. by rewrite <- IH.
Qed.

Lemma py_split_no_sep {A} `{EqDecision A} (sep : A) (s : list A) :
  sep ∉ s -> py_split sep s = [s].
Proof.
  induction s as [|c r IH]; [done|]. intros Hn. cbn [py_split].
  apply not_elem_of_cons in Hn as [Hc Hr].
  destruct (decide (c = sep)) as [->|_]; [done|]. by rewrite IH.
Qed.

Lemma py_split_app {A} `{EqDecision A} (sep : A) (s r : list A) :
  sep ∉ s -> py_split sep (s ++ sep :: r) = s :: py_split sep r.
Proof.
  induction s as [|c s IH]; intros Hn; cbn [py_split app].
  - by rewrite decide_True.
  - apply not_elem_of_cons in Hn as [Hc Hs].
    rewrite decide_False by done. by rewrite IH.
Qed.

Lemma py_split_join {A} `{EqDecision A} (sep : A) (parts : list (list A)) :
  parts <> [] -> Forall (fun p => sep ∉ p) parts ->
  py_split sep (py_join sep parts) = parts.
Proof.
  induction parts as [|p ps IH]; [done|]. intros _ Hall.
  apply Forall_cons in Hall as [Hp Hps].
  destruct ps as [|q ps]; cbn [py_join].
  - by apply py_split_no_sep.
  - rewrite py_split_app by done. f_equal. by apply IH.
Qed.

Lemma unpack2_ok parts : length parts = 2%nat -> unpack2 parts = inr (pair_of parts).
Proof. destruct parts as [|k [|v [|? ?]]]; done. Qed.

Lemma unpack2_fail parts :
  length parts <> 2%nat -> exists e, unpack2 parts = inl e.
Proof. destruct parts as [|k [|v [|? ?]]]; cbn; intros; try done; eauto. Qed.

Lemma dict_comprehension_ok d els :
  Forall (fun p => length p = 2%nat) els ->
  dict_comprehension d els
  = inr (foldl (fun d kv => <[kv.1 := kv.2]> d) d (List.map pair_of els)).
Proof.
  revert d. induction els as [|p els IH]; intros d Hall; [done|].
  apply Forall_cons in Hall as [Hp Hall]. cbn.
  rewrite (unpack2_ok _ Hp). destruct (pair_of p) as [k v]. by apply IH.
Qed.

Lemma dict_comprehension_fail d els :
  Exists (fun p => length p <> 2%nat) els ->
  exists e, dict_comprehension d els = inl e.
Proof.
  revert d. induction els as [|p els IH]; intros d Hex.
  - by apply Exists_nil in Hex.
  - cbn. destruct (unpack2 p) as [e|[k v]] eqn:Hu; [eauto|].
    apply Exists_cons in Hex as [Hp|Hex]; [|by apply IH].
    apply unpack2_fail in Hp as [e He]. congruence.
Qed.

Lemma foldl_insert_list_to_map (d : gmap str str) (kvs : list (str * str)) :
  foldl (fun d kv => <[kv.1 := kv.2]> d) d kvs = list_to_map (reverse kvs) ∪ d.
Proof.
  revert d. induction kvs as [|[k v] kvs IH]; intros d.
  - cbn. by rewrite (left_id_L ∅ (∪)).
  - cbn [foldl]. rewrite IH, reverse_cons, list_to_map_app. cbn.
    rewrite <- (assoc_L (∪)). f_equal.
    by rewrite insert_empty, <- insert_union_singleton_l.
Qed.

Lemma segment_parts seg : length (py_split 61 seg) = S (count_eq seg).
Proof. apply py_split_length. Qed.

Lemma parse_text_ok text :
  Forall (fun seg => count_eq seg = 1%nat) (py_split 38 text) ->
  parse_text text = inr (list_to_map (reverse (text_pairs text))).
Proof.
  intros Hall. unfold parse_text, text_pairs.
  rewrite dict_comprehension_ok.
  - rewrite foldl_insert_list_to_map, (right_id_L ∅ (∪)).
    by rewrite <- list_fmap_compose.
  - apply Forall_fmap. eapply Forall_impl; [exact Hall|].
    intros seg Hseg. cbn. by rewrite segment_parts, Hseg.
Qed.

Lemma parse_text_fail text seg :
  seg ∈ py_split 38 text -> count_eq seg <> 1%nat ->
  exists e, parse_text text = inl e /\ is_ValueError e = true.
Proof.
  intros Hin Hc. unfold parse_text.
  destruct (dict_comprehension_fail ∅ (List.map (py_split 61) (py_split 38 text)))
    as [e He].
  - apply Exists_exists. exists (py_split 61 seg). split.
    + by apply list_elem_of_fmap_2.
    + rewrite segment_parts. lia.
  - exists e. split; [done|]. by eapply dict_comprehension_error.
Qed.

Lemma list_to_map_rev_last (l1 l2 : list (str * str)) (k v : str) :
  k ∉ l2.*1 ->
  (list_to_map (reverse (l1 ++ (k, v) :: l2)) : gmap str str) !! k = Some v.
Proof.
  intros Hk. rewrite reverse_app, reverse_cons, <- app_assoc. cbn.
  rewrite list_to_map_app, lookup_union_r.
  - cbn. apply lookup_insert_eq.
  - apply not_elem_of_list_to_map_1. rewrite fmap_reverse.
    intros Hin. apply Hk. rewrite elem_of_reverse in Hin. exact Hin.
Qed.

(** ** The connection handler *)

Lemma save_data_completes w x :
  result (save_data w x) = inr tt
  /\ last (trace (save_data w x)) = Some EvClientClose
  /\ logged_errors (trace (save_data w x)) <> [].
Proof.
  rewrite save_data_eq. unfold result, trace, save_outcome. cbn [fst snd].
  split; [done|]. destruct (decode x); done.
Qed.

(** Whatever [handle] sends is the chunk it has just received and handed
    to [save_data]. *)
Lemma handle_send_is_echo (script : list round) t1 y ok t2 :
  trace (handle script) = t1 ++ EvSend y ok :: t2 ->
  exists t0 w,
    t1 = t0 ++ EvRecv 1024 (inr y) :: trace (save_data w y)
           ++ [EvPrint (DataReceived y)].
Proof.
  rewrite handle_eq. cbn [trace fst]. intros Heq.
  destruct t1 as [|e1 t1]; cbn in Heq; injection Heq as He1 Heq; [done|].
  apply app_eq_split_r in Heq as (t2' & -> & Hloop).
  - apply recv_loop_before_send in Hloop as (t0 & w & -> & _).
    by exists (e1 :: t0), w.
  - unfold handle_ending. intros Hin.
    destruct (result (recv_loop script));
      repeat (apply elem_of_cons in Hin as [? | Hin]; [done|]);
      by apply elem_of_nil in Hin.
Qed.

(** C1.  On every connection, a non-empty chunk that [handle] receives is
    followed in the trace by the whole persistence attempt for that chunk
    ([save_data] runs to its end: it returns normally, its last step is
    the close of the database client, and it has logged an error or stored
    a record), then by the echo, whose argument is exactly the received
    bytes.  Nothing is sent in between, and the chunk is arbitrary: it
    does not matter whether it decodes. *)
Theorem handle_persist_then_echo (script : list round) (t1 t2 : list event)
    (x : bytes) :
  trace (handle script) = t1 ++ EvRecv 1024 (inr x) :: t2 ->
  x <> [] ->
  exists w ok t3,
    t2 = trace (save_data w x) ++ EvPrint (DataReceived x) :: EvSend x ok :: t3
    /\ result (save_data w x) = inr tt
    /\ last (trace (save_data w x)) = Some EvClientClose
    /\ (persisted (trace (save_data w x)) <> []
        \/ logged_errors (trace (save_data w x)) <> [])
    /\ (forall ev, ev ∈ trace (save_data w x) -> is_sock_io ev = false).
Proof.
  rewrite handle_eq. cbn [trace fst]. intros Heq Hx.
  destruct t1 as [|e1 t1]; cbn in Heq; injection Heq as He1 Heq; [done|].
  apply app_eq_split_r in Heq as (t2' & -> & Hloop).
  - apply recv_loop_after_recv in Hloop as (w & ok & t3 & ->); [|done].
    exists w, ok, (t3 ++ handle_ending (result (recv_loop script))).
    destruct (save_data_completes w x) as (Hres & Hlast & Hlog).
    repeat split; try done.
    + by rewrite <- app_assoc.
    + by right.
    + apply save_data_no_sock_io.
  - unfold handle_ending. intros Hin.
    destruct (result (recv_loop script));
      repeat (apply elem_of_cons in Hin as [? | Hin]; [done|]);
      by apply elem_of_nil in Hin.
Qed.

Lemma handle_persist_then_echo_witness :
  exists w ok t3,
    [EvMongoClient; EvLogError (ParsingError (ValueError_not_enough 1));
     EvLogInfo DatabaseConnectionClosed; EvClientClose;
     EvPrint (DataReceived (bstr "badpair")); EvSend (bstr "badpair") true;
     EvRecv 1024 (inr []); EvPrint SocketConnectionClosed; EvSockClose]
    = trace (save_data w (bstr "badpair"))
        ++ EvPrint (DataReceived (bstr "badpair"))
        :: EvSend (bstr "badpair") ok :: t3
    /\ result (save_data w (bstr "badpair")) = inr tt
    /\ last (trace (save_data w (bstr "badpair"))) = Some EvClientClose
    /\ (persisted (trace (save_data w (bstr "badpair"))) <> []
        \/ logged_errors (trace (save_data w (bstr "badpair"))) <> [])
    /\ (forall ev, ev ∈ trace (save_data w (bstr "badpair")) ->
                   is_sock_io ev = false).
Proof.
  apply (handle_persist_then_echo
           [{| r_recv := RecvBytes (bstr "badpair");
               r_db := {| insert_ok := true; now := ustr "2024-05-01 10:00:00" |};
               r_send_ok := true |}]
           [EvPrint ConnectionEstablished]).
  - vm_compute. reflexivity.
  - discriminate.
Defined.

(** The loop always begins with a read. *)
Lemma recv_loop_starts_with_recv script :
  exists res tl, trace (recv_loop script) = EvRecv 1024 res :: tl.
Proof.
  destruct script as [|r rest]; [by eexists _, _|].
  destruct (r_recv r) as [d|] eqn:Hr.
  - destruct (take 1024 d) as [|c l] eqn:Ht.
    + rewrite (recv_loop_eof _ _ _ Hr Ht). by eexists _, _.
    + rewrite (recv_loop_chunk _ _ _ Hr) by (rewrite Ht; done).
      unfold round_events. cbn. by eexists _, _.
  - rewrite (recv_loop_raises _ _ Hr). by eexists _, _.
Qed.

(** C5.  A chunk whose decoding fails, or whose insert fails, costs one
    logged error and at most one insert attempt (no retry), stores
    nothing, and leaves the connection open: once the echo has gone out,
    [handle] goes on with the receive loop on the rest of the connection,
    which starts with the next [recv], and the socket is closed only after
    that loop has ended (peer EOF or socket error). *)
Theorem handle_continues_after_save_error (r : round) (rest : list round)
    (data : bytes) :
  r_recv r = RecvBytes data ->
  take 1024 data <> [] ->
  r_send_ok r = true ->
  ((exists e, decode (take 1024 data) = inl e) \/ insert_ok (r_db r) = false) ->
  let x := take 1024 data in
  length (logged_errors (trace (save_data (r_db r) x))) = 1%nat
  /\ (length (insert_attempts (trace (save_data (r_db r) x))) <= 1)%nat
  /\ persisted (trace (save_data (r_db r) x)) = []
  /\ result (save_data (r_db r) x) = inr tt
  /\ trace (handle (r :: rest))
     = EvPrint ConnectionEstablished :: round_events (r_db r) x true
         ++ trace (recv_loop rest) ++ handle_ending (result (recv_loop rest))
  /\ (exists res tl, trace (recv_loop rest) = EvRecv 1024 res :: tl)
  /\ EvSockClose ∉ round_events (r_db r) x true.
Proof.
  intros Hr Hx Hsend Hfail x. subst x. set (x := take 1024 data) in *.
  rewrite handle_eq, (recv_loop_chunk _ _ _ Hr Hx), Hsend. fold x.
  cbn [trace result fst snd].
  rewrite (save_data_eq (r_db r) x). unfold save_outcome. cbn [fst snd].
  repeat split.
  - destruct (decode x); done.
  - destruct (decode x); cbn; lia.
  - destruct Hfail as [[e He] | Hins].
    + by rewrite He.
    + rewrite Hins. by destruct (decode x).
  - by rewrite <- app_assoc.
  - apply recv_loop_starts_with_recv.
  - unfold round_events. rewrite (save_data_eq (r_db r) x).
    unfold save_outcome. cbn [trace fst]. intros Hin.
    destruct (decode x);
      repeat (apply elem_of_cons in Hin as [? | Hin]; [done|]);
      by apply elem_of_nil in Hin.
Qed.

(** ** Decoding and storing *)

(** A segment has exactly one [=] precisely when it unpacks into two
    parts. *)
Lemma segment_unpacks seg :
  count_eq seg = 1%nat <-> exists k v, py_split 61 seg = [k; v].
Proof.
  pose proof (segment_parts seg) as Hlen. split.
  - intros Hc. rewrite Hc in Hlen.
    destruct (py_split 61 seg) as [|k [|v [|? ?]]]; try done. eauto.
  - intros (k & v & Hs). rewrite Hs in Hlen. cbn in Hlen. lia.
Qed.

(** C2 as amended.  When the text that [save_data] splits, that is the
    payload after UTF-8 and percent-decoding, has an [&]-delimited segment
    with no [=] or with two or more, decoding raises a [ValueError]
    (the MalformedPayload of the design); no map is produced, the error is
    logged as a parsing error, and [insert_one] is never called. *)
Theorem malformed_segment_rejected (w : db_world) (data : bytes) (text seg : str) :
  data_parse data = inr text ->
  seg ∈ py_split 38 text ->
  count_eq seg <> 1%nat ->
  exists e,
    decode data = inl e
    /\ is_ValueError e = true
    /\ trace (save_data w data)
       = [EvMongoClient; EvLogError (ParsingError e);
          EvLogInfo DatabaseConnectionClosed; EvClientClose]
    /\ insert_attempts (trace (save_data w data)) = [].
Proof.
  intros Hparse Hin Hc.
  destruct (parse_text_fail text seg Hin Hc) as (e & He & Hv).
  assert (Hdec : decode data = inl e) by (unfold decode; by rewrite Hparse).
  exists e. rewrite save_data_eq. unfold save_outcome. rewrite Hdec.
  repeat split; done.
Qed.

Lemma malformed_segment_rejected_witness :
  exists e,
    decode (bstr "name=Alice&a=b=c") = inl e
    /\ is_ValueError e = true
    /\ trace (save_data {| insert_ok := true; now := ustr "T" |}
                (bstr "name=Alice&a=b=c"))
       = [EvMongoClient; EvLogError (ParsingError e);
          EvLogInfo DatabaseConnectionClosed; EvClientClose]
    /\ insert_attempts
         (trace (save_data {| insert_ok := true; now := ustr "T" |}
                   (bstr "name=Alice&a=b=c"))) = [].
Proof.
  apply (malformed_segment_rejected _ _ (ustr "name=Alice&a=b=c") (ustr "a=b=c")).
  - vm_compute. reflexivity.
  - vm_compute. apply list_elem_of_further, list_elem_of_here.
  - vm_compute. discriminate.
Defined.

(** C2, counterexample.  The payload [a%3Db] has a single raw segment, which holds no [=]; it
    is decoded to the map a ↦ b and stored. *)
Lemma raw_malformed_segment_accepted : ~ rejects_raw_malformed_segment.
Proof.
  intros Hclaim.
  destruct (Hclaim {| insert_ok := true; now := ustr "T" |}
              (bstr "a%3Db") (bstr "a%3Db")) as [_ Hnone].
  - vm_compute. apply list_elem_of_here.
  - vm_compute. discriminate.
  - vm_compute in Hnone. discriminate.
Qed.

Lemma text_pairs_join (kvs : list (str * str)) :
  kvs <> [] ->
  Forall (fun kv => (38 ∉ kv.1) /\ (61 ∉ kv.1) /\ (38 ∉ kv.2) /\ (61 ∉ kv.2)) kvs ->
  py_split 38 (py_join 38 (List.map segment_of kvs)) = List.map segment_of kvs
  /\ text_pairs (py_join 38 (List.map segment_of kvs)) = kvs
  /\ Forall (fun seg => count_eq seg = 1%nat) (List.map segment_of kvs).
Proof.
  intros Hne Hall.
  assert (Hsplit : py_split 38 (py_join 38 (List.map segment_of kvs))
                   = List.map segment_of kvs).
  { apply py_split_join; [by destruct kvs|].
    apply Forall_fmap. eapply Forall_impl; [exact Hall|].
    intros [k v] (Hk & _ & Hv & _). cbn. unfold segment_of. cbn.
    intros Hin. apply elem_of_app in Hin as [?|Hin]; [done|].
    apply elem_of_cons in Hin as [?|?]; done. }
  assert (Hparts : forall kv, kv ∈ kvs -> py_split 61 (segment_of kv) = [kv.1; kv.2]).
  { intros [k v] Hin. rewrite Forall_forall in Hall.
    destruct (Hall _ Hin) as (_ & Hk & _ & Hv). cbn in *.
    unfold segment_of. cbn. rewrite py_split_app by done.
    by rewrite py_split_no_sep. }
  split; [done|]. split.
  - unfold text_pairs. rewrite Hsplit.
    clear Hsplit Hne Hall. induction kvs as [|kv kvs IH]; [done|].
    cbn. rewrite (Hparts kv) by apply list_elem_of_here.
    destruct kv as [k v]. cbn. f_equal. apply IH.
    intros kv' Hin. apply Hparts. by apply list_elem_of_further.
  - apply Forall_fmap, Forall_forall. intros kv Hin. cbn.
    apply segment_unpacks. rewrite (Hparts kv Hin). eauto.
Qed.

(** C4 as amended.  When the text that [save_data] splits, that is the
    payload after UTF-8 and percent-decoding, reads key=value&key=value...
    with distinct keys and no [&] or [=] inside a key or a value, decoding
    yields the map with exactly those keys, each bound to its value. *)
Theorem decode_well_formed_text (data : bytes) (kvs : list (str * str)) :
  data_parse data = inr (py_join 38 (List.map segment_of kvs)) ->
  kvs <> [] ->
  Forall (fun kv => (38 ∉ kv.1) /\ (61 ∉ kv.1) /\ (38 ∉ kv.2) /\ (61 ∉ kv.2)) kvs ->
  NoDup kvs.*1 ->
  exists fields : gmap str str,
    decode data = inr fields
    /\ fields = list_to_map kvs
    /\ (forall k v, fields !! k = Some v <-> (k, v) ∈ kvs).
Proof.
  intros Hparse Hne Hall Hnd.
  destruct (text_pairs_join kvs Hne Hall) as (Hsplit & Hpairs & Hone).
  exists (list_to_map kvs). split; [|split; [done|]].
  - unfold decode. rewrite Hparse, parse_text_ok by (by rewrite Hsplit).
    rewrite Hpairs. f_equal. apply list_to_map_proper.
    + by rewrite fmap_reverse, reverse_Permutation.
    + apply reverse_Permutation.
  - intros k v. symmetry. by apply elem_of_list_to_map.
Qed.

Lemma decode_well_formed_text_witness :
  exists fields : gmap str str,
    decode (bstr "name=Alice&msg=Hi%20there") = inr fields
    /\ fields = list_to_map [(ustr "name", ustr "Alice"); (ustr "msg", ustr "Hi there")]
    /\ (forall k v, fields !! k = Some v <->
          (k, v) ∈ [(ustr "name", ustr "Alice"); (ustr "msg", ustr "Hi there")]).
Proof.
  apply (decode_well_formed_text (bstr "name=Alice&msg=Hi%20there")
           [(ustr "name", ustr "Alice"); (ustr "msg", ustr "Hi there")]).
  - vm_compute. reflexivity.
  - discriminate.
  - repeat apply Forall_cons_2; [| |apply Forall_nil_2];
      vm_compute; repeat split; intros Hin;
      repeat (apply elem_of_cons in Hin as [Hin|Hin]; [discriminate Hin|]);
      by apply elem_of_nil in Hin.
  - vm_compute. repeat constructor; intros Hin;
      repeat (apply elem_of_cons in Hin as [Hin|Hin]; [discriminate Hin|]);
      by apply elem_of_nil in Hin.
Defined.

(** C4, counterexample.  The payload [msg=1%3D2] is the single field msg with the raw value
    [1%3D2], whose percent-decoding is [1=2]; it is not decoded to
    msg ↦ 1=2 but rejected. *)
Lemma raw_fields_not_decoded : ~ decodes_raw_fields.
Proof.
  intros Hclaim.
  specialize (Hclaim [(bstr "msg", bstr "1%3D2")] [(ustr "msg", ustr "1=2")]).
  assert (Hdec : decode (py_join x26 (List.map raw_segment_of
                                        [(bstr "msg", bstr "1%3D2")]))
                 = inl ValueError_too_many)
    by (vm_compute; reflexivity).
  rewrite Hclaim in Hdec.
  - discriminate.
  - discriminate.
  - apply Forall_cons_2; [|apply Forall_nil_2].
    vm_compute; repeat split; intros Hin;
      repeat (apply elem_of_cons in Hin as [Hin|Hin]; [discriminate Hin|]);
      by apply elem_of_nil in Hin.
  - apply Forall2_cons_2; [|apply Forall2_nil_2].
    split; vm_compute; reflexivity.
  - vm_compute. repeat constructor. intros Hin. by apply elem_of_nil in Hin.
Qed.

Lemma handle_continues_after_save_error_witness :
  persisted (trace (save_data {| insert_ok := false; now := ustr "T" |}
                      (bstr "name=Alice"))) = []
  /\ exists res tl,
       trace (recv_loop [{| r_recv := RecvBytes (bstr "badpair");
                            r_db := {| insert_ok := true; now := ustr "T" |};
                            r_send_ok := true |}])
       = EvRecv 1024 res :: tl.
Proof.
  pose proof (handle_continues_after_save_error
    {| r_recv := RecvBytes (bstr "name=Alice");
       r_db := {| insert_ok := false; now := ustr "T" |};
       r_send_ok := true |}
    [{| r_recv := RecvBytes (bstr "badpair");
        r_db := {| insert_ok := true; now := ustr "T" |};
        r_send_ok := true |}]
    (bstr "name=Alice") eq_refl
    ltac:(vm_compute; discriminate) eq_refl (or_intror eq_refl)) as H.
  cbv zeta in H. destruct H as (_ & _ & Hnone & _ & _ & Hnext & _).
  split; [exact Hnone | exact Hnext].
Defined.

(** C6.  When the payload decodes, the one document handed to
    [insert_one], hence every record that is persisted, is the decoded
    field map with the key [date] set to the timestamp read at that
    moment: all other keys keep their decoded values, and a [date] that
    came with the payload is overwritten. *)
Theorem persisted_record_shape (w : db_world) (data : bytes)
    (fields : gmap str str) :
  decode data = inr fields ->
  let doc := <[ustr "date" := now w]> fields in
  insert_attempts (trace (save_data w data)) = [doc]
  /\ persisted (trace (save_data w data)) = (if insert_ok w then [doc] else [])
  /\ doc !! ustr "date" = Some (now w)
  /\ (forall k, k <> ustr "date" -> doc !! k = fields !! k).
Proof.
  intros Hdec doc. rewrite save_data_eq. unfold save_outcome.
  rewrite Hdec. cbn [trace fst]. repeat split.
  - by destruct (insert_ok w).
  - apply lookup_insert_eq.
  - intros k Hk. by apply lookup_insert_ne.
Qed.

Lemma persisted_record_shape_witness :
  let w := {| insert_ok := true; now := ustr "2024-05-01 10:00:00.000001" |} in
  let fields : gmap str str :=
    <[ustr "date" := ustr "x"]> (<[ustr "a" := ustr "b"]> ∅) in
  fields !! ustr "date" = Some (ustr "x")
  /\ persisted (trace (save_data w (bstr "a=b&date=x")))
     = [<[ustr "date" := now w]> fields]
  /\ (<[ustr "date" := now w]> fields) !! ustr "date" = Some (now w).
Proof.
  intros w fields.
  destruct (persisted_record_shape w (bstr "a=b&date=x") fields)
    as (_ & Hp & Hd & _).
  - vm_compute. reflexivity.
  - split; [vm_compute; reflexivity|]. split; [exact Hp | exact Hd].
Defined.

(** C9.  The empty byte sequence splits into one empty segment, which
    holds no [=]; decoding it raises the [ValueError] of an unpacking that
    got one value, [save_data] logs it as a parsing error, and
    [insert_one] is not called. *)
Theorem empty_payload_is_parsing_error (w : db_world) :
  data_parse [] = inr []
  /\ py_split 38 (@nil N) = [[]]
  /\ count_eq [] = 0%nat
  /\ decode [] = inl (ValueError_not_enough 1)
  /\ save_data w []
     = ([EvMongoClient; EvLogError (ParsingError (ValueError_not_enough 1));
         EvLogInfo DatabaseConnectionClosed; EvClientClose], inr tt)
  /\ insert_attempts (trace (save_data w [])) = [].
Proof. repeat split. Qed.

(** C10.  When every [&]-segment of the text that [save_data] splits (the
    payload after UTF-8 and percent-decoding) holds exactly one [=], the
    payload decodes, also when a key occurs in several segments, and a
    key is bound to the value of its last segment: the pair after which
    no later pair has the same key. *)
Theorem duplicate_key_last_wins (data : bytes) (text : str)
    (l1 l2 : list (str * str)) (k v : str) :
  data_parse data = inr text ->
  Forall (fun seg => count_eq seg = 1%nat) (py_split 38 text) ->
  text_pairs text = l1 ++ (k, v) :: l2 ->
  k ∉ l2.*1 ->
  exists fields : gmap str str,
    decode data = inr fields /\ fields !! k = Some v.
Proof.
  intros Hparse Hwf Hpairs Hlast.
  exists (list_to_map (reverse (text_pairs text))). split.
  - unfold decode. rewrite Hparse. by apply parse_text_ok.
  - rewrite Hpairs. by apply list_to_map_rev_last.
Qed.

Lemma duplicate_key_last_wins_witness :
  exists fields : gmap str str,
    decode (bstr "a=1&b=x&a=2") = inr fields /\ fields !! ustr "a" = Some (ustr "2").
Proof.
  apply (duplicate_key_last_wins (bstr "a=1&b=x&a=2") (ustr "a=1&b=x&a=2")
           [(ustr "a", ustr "1"); (ustr "b", ustr "x")] []).
  - vm_compute. reflexivity.
  - vm_compute. repeat constructor.
  - vm_compute. reflexivity.
  - cbn. intros Hin. by apply elem_of_nil in Hin.
Defined.

(** ** The relay client and the POST handler *)

Lemma send_data_to_socket_returns w data :
  result (send_data_to_socket w data) = inr tt.
Proof.
  unfold send_data_to_socket.
  destruct w as [[|] [|] [|] [d|]]; cbn; try reflexivity.
  unfold bytes_decode. destruct (utf8_scan UStart (take 1024 d)) as [s [|]];
    reflexivity.
Qed.

(** A read of a readable length returns when the allocation succeeds:
    the whole body for -1, otherwise its first [n] bytes. *)
Lemma rfile_read_returns (n : Z) (body : bytes) :
  readable_length n ->
  rfile_read true n body
  = (let data := if (n =? -1)%Z then body else take (Z.to_nat n) body in
     ([EvRead n data], inr data)).
Proof.
  intros [Hlo Hhi]. unfold rfile_read, PY_SSIZE_T_MAX, BYTES_OVERHEAD in *.
  replace (n <? - (2 ^ 63 - 1) - 1)%Z with false by (symmetry; apply Z.ltb_ge; lia).
  replace (2 ^ 63 - 1 <? n)%Z with false by (symmetry; apply Z.ltb_ge; lia).
  replace (n <? -1)%Z with false by (symmetry; apply Z.ltb_ge; lia).
  replace (2 ^ 63 - 1 - 33 <? n)%Z with false by (symmetry; apply Z.ltb_ge; lia).
  reflexivity.
Qed.

(** Any other read raises before it has read anything. *)
Lemma rfile_read_raises (alloc_ok : bool) (n : Z) (body : bytes) :
  alloc_ok = false \/ ~ readable_length n ->
  exists e, rfile_read alloc_ok n body = ([], inl e)
            /\ (e = OverflowError \/ e = ValueError_read_length \/ e = MemoryError).
Proof.
  intros Hbad. unfold rfile_read, readable_length in *.
  destruct ((n <? - PY_SSIZE_T_MAX - 1)%Z || (PY_SSIZE_T_MAX <? n)%Z) eqn:E1;
    [eexists; split; [reflexivity | by left]|].
  destruct (n <? -1)%Z eqn:E2; [eexists; split; [reflexivity | right; by left]|].
  destruct (PY_SSIZE_T_MAX - BYTES_OVERHEAD <? n)%Z eqn:E3;
    [eexists; split; [reflexivity | by left]|].
  destruct alloc_ok; cbn; [|eexists; split; [reflexivity | right; by right]].
  exfalso. destruct Hbad as [?|Hbad]; [done|]. apply Hbad.
  apply Z.ltb_ge in E2, E3. lia.
Qed.




(** C7.  [send_data_to_socket] creates the socket, connects to the relay
    endpoint, passes the whole payload to one [send], and reads once with
    a buffer of 1024 bytes; no path through it calls [close] on the
    socket. *)
Theorem send_data_to_socket_never_closes (w : relay_world) (data : bytes) :
  (EvSockClose ∉ trace (send_data_to_socket w data))
  /\ (socket_ok w = true -> connect_ok w = true -> send_ok w = true ->
      forall avail, recv_res w = RecvBytes avail ->
        trace (send_data_to_socket w data)
        = [EvSocket true; EvConnect TCP_IP TCP_PORT true;
           EvPrint ConnectionEstablished; EvSend data true;
           EvRecv 1024 (inr (take 1024 avail))]
          ++ match bytes_decode (take 1024 avail) with
             | inr text => [EvPrint (ResponseData text);
                            EvPrint DataTransferCompleted]
             | inl _ => [EvLogError UnexpectedClientSend]
             end
        /\ (length (take 1024 avail) <= 1024)%nat).
Proof.
  split.
  - unfold send_data_to_socket.
    destruct w as [[|] [|] [|] [d|]]; cbn;
      try (unfold bytes_decode;
           destruct (utf8_scan UStart (take 1024 d)) as [s [|]]; cbn);
      intros Hin;
      repeat (apply elem_of_cons in Hin as [? | Hin]; [done|]);
      by apply elem_of_nil in Hin.
  - destruct w as [so co se re]. cbn. intros -> -> -> avail ->.
    split; [|rewrite length_take; lia].
    unfold send_data_to_socket. cbn. unfold bytes_decode.
    destruct (utf8_scan UStart (take 1024 avail)) as [s [|]]; reflexivity.
Qed.

(** ** Static files *)

(** C8.  For a path whose type [mimetypes] cannot guess, [send_static]
    sends the header [Content-type: None]: the pair that [guess_type]
    returns is never falsy, so the [text/plain] branch is not taken. *)
Theorem send_static_unknown_type
    (guess_type : string -> option string * option string)
    (read_file : string -> option bytes) (path : string) :
  (guess_type path).1 = None ->
  EvSendHeader "Content-type" "None" ∈ trace (send_static guess_type read_file path)
  /\ EvSendHeader "Content-type" "text/plain"
       ∉ trace (send_static guess_type read_file path).
Proof.
  intros Hnone. unfold send_static. rewrite Hnone.
  destruct (read_file _); cbn; split;
    try (apply list_elem_of_further, list_elem_of_here);
    intros Hin;
    repeat (apply elem_of_cons in Hin as [? | Hin]; [done|]);
    by apply elem_of_nil in Hin.
Qed.

Lemma send_static_unknown_type_witness :
  EvSendHeader "Content-type" "None"
    ∈ trace (send_static guess_type_sample (fun _ => Some (bstr "x")) "/notes.xyz")
  /\ EvSendHeader "Content-type" "text/plain"
       ∉ trace (send_static guess_type_sample (fun _ => Some (bstr "x")) "/notes.xyz").
Proof.
  apply (send_static_unknown_type guess_type_sample). vm_compute. reflexivity.
Defined.

(** A type that is guessed is the header that is sent. *)
Lemma send_static_known_type guess_type read_file path ty :
  (guess_type path).1 = Some ty ->
  EvSendHeader "Content-type" ty ∈ trace (send_static guess_type read_file path).
Proof.
  intros Hty. unfold send_static. rewrite Hty.
  destruct (read_file _); cbn; apply list_elem_of_further, list_elem_of_here.
Qed.

(** * Further properties of the code *)

(** ** More on splitting *)

Lemma py_split_nonempty {A} `{EqDecision A} (sep : A) (s : list A) :
  py_split sep s <> [].
Proof.
  pose proof (py_split_length sep s) as Hlen.
  destruct (py_split sep s); [cbn in Hlen; lia | done].
Qed.

Lemma py_split_parts_no_sep {A} `{EqDecision A} (sep : A) (s p : list A) :
  p ∈ py_split sep s -> sep ∉ p.
Proof.
  revert p. induction s as [|c r IH]; intros p Hin; cbn [py_split] in Hin.
  - apply list_elem_of_singleton in Hin as ->. apply not_elem_of_nil.
  - destruct (decide (c = sep)) as [->|Hc].
    + apply elem_of_cons in Hin as [-> | Hin]; [apply not_elem_of_nil | by apply IH].
    + destruct (py_split sep r) as [|seg segs] eqn:E.
      * by destruct (py_split_nonempty sep r).
      * apply elem_of_cons in Hin as [-> | Hin].
        -- apply not_elem_of_cons. split; [done|].
           apply IH, list_elem_of_here.
        -- by apply IH, list_elem_of_further.
Qed.

Lemma py_join_cons {A} (sep : A) (p q : list A) (l : list (list A)) :
  py_join sep (p :: q :: l) = p ++ sep :: py_join sep (q :: l).
Proof. reflexivity. Qed.

Lemma py_join_split {A} `{EqDecision A} (sep : A) (s : list A) :
  py_join sep (py_split sep s) = s.
Proof.
  induction s as [|c r IH]; [done|]. cbn [py_split].
  pose proof (py_split_nonempty sep r) as Hne.
  destruct (py_split sep r) as [|seg segs] eqn:E; [done|].
  destruct (decide (c = sep)) as [->|Hc].
  - rewrite py_join_cons, IH. done.
  - destruct segs as [|seg' segs].
    + cbn in *. by rewrite IH.
    + rewrite <- IH, !py_join_cons. reflexivity.
Qed.

Lemma py_split_map {A B} `{EqDecision A} `{EqDecision B}
    (f : A -> B) (sep : A) (sep' : B) (s : list A) :
  (forall x, f x = sep' <-> x = sep) ->
  py_split sep' (List.map f s) = List.map (List.map f) (py_split sep s).
Proof.
  intros Hf. induction s as [|c r IH]; [done|]. cbn [py_split List.map].
  destruct (decide (c = sep)) as [->|Hc].
  - rewrite decide_True by (by apply Hf). cbn. by rewrite <- IH.
  - rewrite decide_False by (by rewrite Hf). rewrite IH.
    destruct (py_split sep r); done.
Qed.

(** ** More on decoding *)

Lemma decode_inr_inv data fields :
  decode data = inr fields ->
  exists text,
    data_parse data = inr text
    /\ Forall (fun seg => count_eq seg = 1%nat) (py_split 38 text)
    /\ fields = list_to_map (reverse (text_pairs text)).
Proof.
  unfold decode. destruct (data_parse data) as [e|text]; [done|].
  intros Hp. exists text. split; [done|].
  destruct (decide (Forall (fun seg => count_eq seg = 1%nat) (py_split 38 text)))
    as [Hall|Hnot].
  - split; [done|]. rewrite parse_text_ok in Hp by done. congruence.
  - apply not_Forall_Exists in Hnot; [|apply _].
    apply Exists_exists in Hnot as (seg & Hin & Hseg).
    destruct (parse_text_fail text seg Hin Hseg) as (e & He & _). congruence.
Qed.

(** X1.  Decoding succeeds exactly when the payload is valid UTF-8 and
    every [&]-segment of its percent-decoded text holds exactly one [=]. *)
Theorem decode_succeeds_iff (data : bytes) :
  (exists fields, decode data = inr fields)
  <-> exists text,
        data_parse data = inr text
        /\ Forall (fun seg => count_eq seg = 1%nat) (py_split 38 text).
Proof.
  split.
  - intros [fields Hd]. apply decode_inr_inv in Hd as (text & ? & ? & _). eauto.
  - intros (text & Hp & Hall). unfold decode. rewrite Hp, parse_text_ok by done.
    eauto.
Qed.

(** X2.  A failed decoding raises one of three errors: the payload is not
    UTF-8, or a segment unpacks into one value, or into more than two;
    an unpacking never gets zero values. *)
Theorem decode_error_kinds (data : bytes) (e : exn) :
  decode data = inl e ->
  e = UnicodeDecodeError \/ e = ValueError_not_enough 1 \/ e = ValueError_too_many.
Proof.
  unfold decode, data_parse, bytes_decode.
  destruct (utf8_scan UStart data) as [s [|]]; cbn; [intros [= <-]; by left|].
  unfold parse_text. generalize (∅ : gmap str str).
  pose proof (py_split_nonempty 61) as Hne.
  induction (py_split 38 (unquote_plus s)) as [|seg segs IH]; intros d; [done|].
  cbn. specialize (Hne seg).
  destruct (py_split 61 seg) as [|k [|v [|? ?]]]; cbn; try done.
  - intros [= <-]. right. by left.
  - apply IH.
  - intros [= <-]. right. by right.
Qed.

Lemma decode_error_kinds_witness :
  ValueError_too_many = UnicodeDecodeError
  \/ ValueError_too_many = ValueError_not_enough 1
  \/ ValueError_too_many = ValueError_too_many.
Proof.
  apply (decode_error_kinds (bstr "a=b=c")). vm_compute. reflexivity.
Defined.

Lemma text_pair_parts text k v :
  Forall (fun seg => count_eq seg = 1%nat) (py_split 38 text) ->
  (k, v) ∈ text_pairs text ->
  exists seg, seg ∈ py_split 38 text /\ py_split 61 seg = [k; v].
Proof.
  intros Hall Hin. unfold text_pairs in Hin.
  apply list_elem_of_fmap in Hin as (seg & Hkv & Hseg).
  exists seg. split; [done|].
  rewrite Forall_forall in Hall. specialize (Hall _ Hseg).
  apply segment_unpacks in Hall as (k' & v' & Hs). rewrite Hs in Hkv.
  cbn in Hkv. by simplify_eq.
Qed.

(** X3.  No key and no value of a decoded map contains [&] or [=]: both
    characters are consumed as delimiters after percent-decoding. *)
Theorem decoded_fields_have_no_delimiters (data : bytes)
    (fields : gmap str str) (k v : str) :
  decode data = inr fields ->
  fields !! k = Some v ->
  (38 ∉ k) /\ (61 ∉ k) /\ (38 ∉ v) /\ (61 ∉ v).
Proof.
  intros Hd Hk. apply decode_inr_inv in Hd as (text & _ & Hall & ->).
  apply elem_of_list_to_map_2 in Hk. rewrite elem_of_reverse in Hk.
  destruct (text_pair_parts text k v Hall Hk) as (seg & Hseg & Hparts).
  assert (H61 : forall p, p ∈ [k; v] -> 61 ∉ p).
  { intros p Hp. rewrite <- Hparts in Hp. by eapply py_split_parts_no_sep. }
  assert (H38 : 38 ∉ seg) by (by eapply py_split_parts_no_sep).
  rewrite <- (py_join_split 61 seg), Hparts in H38. cbn in H38.
  rewrite elem_of_app, elem_of_cons in H38.
  repeat split.
  - tauto.
  - apply H61, list_elem_of_here.
  - tauto.
  - apply H61, list_elem_of_further, list_elem_of_here.
Qed.

Lemma decoded_fields_have_no_delimiters_witness :
  (38 ∉ ustr "msg") /\ (61 ∉ ustr "msg")
  /\ (38 ∉ ustr "Hi there") /\ (61 ∉ ustr "Hi there").
Proof.
  apply (decoded_fields_have_no_delimiters (bstr "name=Alice&msg=Hi%20there")
           (<[ustr "msg" := ustr "Hi there"]> (<[ustr "name" := ustr "Alice"]> ∅))).
  - vm_compute. reflexivity.
  - vm_compute. reflexivity.
Defined.

(** X4.  A decoded map is never empty, and its keys are exactly the keys of
    the segments of the percent-decoded text. *)
Theorem decoded_map_keys (data : bytes) (text : str) (fields : gmap str str) :
  data_parse data = inr text ->
  decode data = inr fields ->
  fields <> ∅
  /\ (forall k, is_Some (fields !! k) <-> k ∈ (text_pairs text).*1).
Proof.
  intros Hp Hd. apply decode_inr_inv in Hd as (text' & Hp' & Hall & ->).
  assert (text' = text) as -> by congruence.
  assert (Hdom : forall k, is_Some ((list_to_map (reverse (text_pairs text))
                                      : gmap str str) !! k)
                           <-> k ∈ (text_pairs text).*1).
  { intros k. rewrite <- elem_of_dom, dom_list_to_map_L, elem_of_list_to_set.
    by rewrite fmap_reverse, elem_of_reverse. }
  split; [|done].
  intros Hempty. rewrite Hempty in Hdom.
  destruct (text_pairs text) as [|[k0 v0] l] eqn:E.
  - unfold text_pairs in E. pose proof (py_split_nonempty 38 text) as Hne.
    destruct (py_split 38 text); done.
  - destruct (proj2 (Hdom k0)) as [x Hx]; [apply list_elem_of_here|].
    by rewrite lookup_empty in Hx.
Qed.

Lemma decoded_map_keys_witness :
  (<[ustr "a" := ustr "2"]> ∅ : gmap str str) <> ∅
  /\ (forall k, is_Some ((<[ustr "a" := ustr "2"]> ∅ : gmap str str) !! k)
                <-> k ∈ (text_pairs (ustr "a=1&a=2")).*1).
Proof.
  apply (decoded_map_keys (bstr "a=1&a=2")).
  - vm_compute. reflexivity.
  - vm_compute. reflexivity.
Defined.

(** ** Plain payloads: ASCII bytes without percent signs *)

Lemma byte_to_N_eq (x y : byte) : Byte.to_N x = Byte.to_N y <-> x = y.
Proof.
  split; [|by intros ->]. intros Heq.
  pose proof (Byte.of_to_N x) as Hx. rewrite Heq, Byte.of_to_N in Hx. congruence.
Qed.

Lemma plain_char_eq (x y : byte) :
  Byte.to_N y <> 43 -> Byte.to_N y <> 32 ->
  plain_char x = Byte.to_N y <-> x = y.
Proof.
  intros H43 H32. unfold plain_char. destruct (decide (Byte.to_N x = 43)) as [Hx|Hx].
  - split; [by intros ?|]. intros ->. done.
  - apply byte_to_N_eq.
Qed.

Lemma plain_char_amp x : plain_char x = 38 <-> x = x26.
Proof. by apply (plain_char_eq x x26). Qed.

Lemma plain_char_equals x : plain_char x = 61 <-> x = x3d.
Proof. by apply (plain_char_eq x x3d). Qed.

Lemma utf8_scan_ascii (data : bytes) :
  Forall (fun x => Byte.to_N x < 128) data ->
  utf8_scan UStart data = (List.map Byte.to_N data, false).
Proof.
  induction data as [|x r IH]; intros Hall; [done|].
  apply Forall_cons in Hall as [Hx Hr]. cbn [utf8_scan List.map].
  unfold utf8_step, utf8_lead.
  replace (Byte.to_N x <? 128) with true by (symmetry; by apply N.ltb_lt).
  cbn. by rewrite IH.
Qed.

Lemma data_parse_plain (data : bytes) :
  plain data -> data_parse data = inr (List.map plain_char data).
Proof.
  intros [Hascii Hpct]. unfold data_parse, bytes_decode.
  rewrite utf8_scan_ascii by done. cbn. f_equal.
  unfold unquote_plus, unquote, py_replace. rewrite List.map_map.
  rewrite decide_False; [reflexivity|].
  intros Hin. apply list_elem_of_In, List.in_map_iff in Hin as (x & Hx & Hin).
  apply list_elem_of_In in Hin.
  destruct (decide (Byte.to_N x = 43)); [done|].
  apply (byte_to_N_eq x x25) in Hx. by subst.
Qed.

Lemma count_eq_plain (seg : bytes) :
  count_eq (List.map plain_char seg) = count_eq_raw seg.
Proof.
  unfold count_eq, count_eq_raw. induction seg as [|x r IH]; [done|].
  cbn [List.map]. destruct (decide (x = x3d)) as [->|Hx].
  - rewrite !filter_cons_True by done. cbn. by rewrite IH.
  - rewrite !filter_cons_False; [done|done|]. by rewrite plain_char_equals.
Qed.

(** X5.  For a plain payload the raw segments decide: one raw
    [&]-delimited segment without exactly one [=] makes the decoding fail
    with a [ValueError], and nothing is inserted. *)
Theorem plain_payload_raw_segment_rejected (w : db_world) (data seg : bytes) :
  plain data ->
  seg ∈ py_split x26 data ->
  count_eq_raw seg <> 1%nat ->
  (exists e, decode data = inl e /\ is_ValueError e = true)
  /\ insert_attempts (trace (save_data w data)) = [].
Proof.
  intros Hplain Hseg Hc.
  destruct (parse_text_fail (List.map plain_char data) (List.map plain_char seg))
    as (e & He & Hv).
  - rewrite (py_split_map plain_char x26 38) by apply plain_char_amp.
    apply list_elem_of_In, List.in_map, list_elem_of_In, Hseg.
  - by rewrite count_eq_plain.
  - assert (Hd : decode data = inl e).
    { unfold decode. by rewrite data_parse_plain. }
    split; [eauto|]. rewrite save_data_eq. unfold save_outcome. by rewrite Hd.
Qed.

Lemma plain_payload_raw_segment_rejected_witness :
  (exists e, decode (bstr "name=Alice&badpair") = inl e /\ is_ValueError e = true)
  /\ insert_attempts
       (trace (save_data {| insert_ok := true; now := ustr "T" |}
                 (bstr "name=Alice&badpair"))) = [].
Proof.
  apply (plain_payload_raw_segment_rejected _ _ (bstr "badpair")).
  - split.
    + repeat (apply Forall_cons_2; [vm_compute; reflexivity|]). apply Forall_nil_2.
    + vm_compute. intros Hin.
      repeat (apply elem_of_cons in Hin as [Hin|Hin]; [discriminate Hin|]).
      by apply elem_of_nil in Hin.
  - vm_compute. apply list_elem_of_further, list_elem_of_here.
  - vm_compute. discriminate.
Defined.

Lemma map_py_join {A B} (f : A -> B) (sep : A) (parts : list (list A)) :
  List.map f (py_join sep parts) = py_join (f sep) (List.map (List.map f) parts).
Proof.
  induction parts as [|p ps IH]; [done|].
  destruct ps as [|q ps]; [done|].
  rewrite py_join_cons, List.map_app. cbn [List.map] in *.
  rewrite py_join_cons. by rewrite IH.
Qed.

Lemma not_in_map_plain (sep : byte) (c : N) (s : bytes) :
  (forall x, plain_char x = c <-> x = sep) ->
  sep ∉ s -> c ∉ List.map plain_char s.
Proof.
  intros Hc Hs Hin. apply list_elem_of_In, List.in_map_iff in Hin as (x & Hx & Hin).
  apply Hc in Hx as ->. by apply Hs, list_elem_of_In.
Qed.

(** X6.  Writing plain fields as key=value joined by [&] and decoding the
    result gives the fields back, each [+] read as a space, when the keys
    are distinct and no field holds [&] or [=]. *)
Theorem plain_fields_round_trip (raw : list (bytes * bytes)) :
  raw <> [] ->
  Forall (fun kv => plain kv.1 /\ plain kv.2
                    /\ (x26 ∉ kv.1) /\ (x3d ∉ kv.1)
                    /\ (x26 ∉ kv.2) /\ (x3d ∉ kv.2)) raw ->
  NoDup (List.map (fun kv => List.map plain_char kv.1) raw) ->
  decode (py_join x26 (List.map raw_segment_of raw))
  = inr (list_to_map
           (List.map (fun kv => (List.map plain_char kv.1,
                                 List.map plain_char kv.2)) raw)).
Proof.
  intros Hne Hall Hnd.
  set (kvs := List.map (fun kv : bytes * bytes =>
                          (List.map plain_char kv.1, List.map plain_char kv.2)) raw).
  assert (Hplain : plain (py_join x26 (List.map raw_segment_of raw))).
  { clear Hne Hnd kvs.
    induction raw as [|[k v] raw IH];
      [split; [apply Forall_nil_2 | apply not_elem_of_nil]|].
    apply Forall_cons in Hall as [(Hk & Hv & _) Hall]. specialize (IH Hall).
    assert (Hseg : plain (raw_segment_of (k, v))).
    { destruct Hk as [Hk1 Hk2], Hv as [Hv1 Hv2]. unfold raw_segment_of. cbn in *.
      split.
      - apply Forall_app. split; [done|]. apply Forall_cons. split; [|done].
        vm_compute. reflexivity.
      - rewrite elem_of_app, elem_of_cons. intros [?|[?|?]]; done. }
    destruct raw as [|kv' raw]; [exact Hseg|].
    cbn [List.map] in *. rewrite py_join_cons.
    destruct Hseg as [Hs1 Hs2], IH as [IH1 IH2]. split.
    - apply Forall_app. split; [done|]. apply Forall_cons. split; [|done].
      vm_compute. reflexivity.
    - rewrite elem_of_app, elem_of_cons. intros [?|[?|?]]; done. }
  assert (Htext : List.map plain_char (py_join x26 (List.map raw_segment_of raw))
                  = py_join 38 (List.map segment_of kvs)).
  { rewrite map_py_join. change (plain_char x26) with 38. f_equal.
    unfold kvs. rewrite !List.map_map. apply List.map_ext. intros [k v].
    unfold raw_segment_of, segment_of. cbn. by rewrite List.map_app. }
  assert (Hfree : Forall (fun kv => (38 ∉ kv.1) /\ (61 ∉ kv.1)
                                    /\ (38 ∉ kv.2) /\ (61 ∉ kv.2)) kvs).
  { unfold kvs. apply Forall_forall. intros kv Hin.
    apply list_elem_of_In, List.in_map_iff in Hin as ([k v] & <- & Hin).
    apply list_elem_of_In in Hin. rewrite Forall_forall in Hall.
    destruct (Hall _ Hin) as (_ & _ & H1 & H2 & H3 & H4). cbn in *.
    repeat split.
    - by apply (not_in_map_plain x26 38 k plain_char_amp).
    - by apply (not_in_map_plain x3d 61 k plain_char_equals).
    - by apply (not_in_map_plain x26 38 v plain_char_amp).
    - by apply (not_in_map_plain x3d 61 v plain_char_equals). }
  assert (Hkne : kvs <> []) by (unfold kvs; by destruct raw).
  destruct (text_pairs_join kvs Hkne Hfree) as (Hsplit & Hpairs & Hone).
  unfold decode. rewrite (data_parse_plain _ Hplain), Htext.
  rewrite parse_text_ok by (by rewrite Hsplit). rewrite Hpairs. f_equal.
  apply list_to_map_proper; [|apply reverse_Permutation].
  rewrite fmap_reverse, reverse_Permutation.
  unfold kvs. change (fmap fst) with (@List.map (str * str) str fst).
  by rewrite List.map_map.
Qed.

Lemma plain_fields_round_trip_witness :
  decode (bstr "name=Alice+B&msg=hi")
  = inr (list_to_map [(ustr "name", ustr "Alice B"); (ustr "msg", ustr "hi")]).
Proof.
  apply (plain_fields_round_trip [(bstr "name", bstr "Alice+B"); (bstr "msg", bstr "hi")]).
  - discriminate.
  - repeat (apply Forall_cons_2; [|try apply Forall_nil_2]);
      repeat split;
      try (repeat (apply Forall_cons_2; [vm_compute; reflexivity|]); apply Forall_nil_2);
      vm_compute; intros Hin;
      repeat (apply elem_of_cons in Hin as [Hin|Hin]; [discriminate Hin|]);
      by apply elem_of_nil in Hin.
  - vm_compute. repeat constructor; intros Hin;
      repeat (apply elem_of_cons in Hin as [Hin|Hin]; [discriminate Hin|]);
      by apply elem_of_nil in Hin.
Defined.

(** ** More on [save_data] *)

(** X7.  [save_data] never raises; it opens its database client once, as
    its first step, and closes it once, as its last step, whatever
    happens in between. *)
Theorem save_data_opens_and_closes_once (w : db_world) (data : bytes) :
  result (save_data w data) = inr tt
  /\ (exists mid, trace (save_data w data)
                  = EvMongoClient :: mid
                      ++ [EvLogInfo DatabaseConnectionClosed; EvClientClose])
  /\ count_event is_client_open (trace (save_data w data)) = 1%nat
  /\ count_event is_client_close (trace (save_data w data)) = 1%nat.
Proof.
  rewrite save_data_eq. unfold result, trace. cbn [fst snd].
  split; [done|]. split; [by eexists|].
  unfold save_outcome, count_event. destruct (decode data); done.
Qed.

(** X8.  A stored record is accompanied by a logged error: after a
    successful [insert_one] the awaited [to_thread] call fails, so the call
    that persists the record still logs "Unexpected error while data
    saving". *)
Theorem save_data_success_still_logs_error (w : db_world) (data : bytes)
    (fields : gmap str str) :
  decode data = inr fields ->
  insert_ok w = true ->
  persisted (trace (save_data w data)) = [<[ustr "date" := now w]> fields]
  /\ logged_errors (trace (save_data w data))
     = [UnexpectedSaving TypeError_not_callable].
Proof.
  intros Hd Hok. rewrite save_data_eq. unfold save_outcome, trace.
  rewrite Hd, Hok. done.
Qed.

Lemma save_data_success_still_logs_error_witness :
  persisted (trace (save_data {| insert_ok := true; now := ustr "T" |}
                      (bstr "a=b")))
  = [<[ustr "date" := ustr "T"]> (<[ustr "a" := ustr "b"]> ∅)]
  /\ logged_errors (trace (save_data {| insert_ok := true; now := ustr "T" |}
                             (bstr "a=b")))
     = [UnexpectedSaving TypeError_not_callable].
Proof.
  apply (save_data_success_still_logs_error
           {| insert_ok := true; now := ustr "T" |} (bstr "a=b")).
  - vm_compute. reflexivity.
  - reflexivity.
Defined.

(** X9.  A payload that is not valid UTF-8 is reported as a parsing error
    ([UnicodeDecodeError] is a [ValueError]), not as an unexpected one, and
    [insert_one] is not called. *)
Theorem save_data_invalid_utf8 (w : db_world) (data : bytes) (e : exn) :
  bytes_decode data = inl e ->
  trace (save_data w data)
  = [EvMongoClient; EvLogError (ParsingError UnicodeDecodeError);
     EvLogInfo DatabaseConnectionClosed; EvClientClose].
Proof.
  intros Hb. rewrite save_data_eq. unfold save_outcome, decode, data_parse.
  rewrite Hb. unfold bytes_decode in Hb.
  destruct (utf8_scan UStart data) as [s [|]]; by simplify_eq.
Qed.

Lemma save_data_invalid_utf8_witness :
  trace (save_data {| insert_ok := true; now := ustr "T" |} [x61; x3d; xff])
  = [EvMongoClient; EvLogError (ParsingError UnicodeDecodeError);
     EvLogInfo DatabaseConnectionClosed; EvClientClose].
Proof.
  apply (save_data_invalid_utf8 _ _ UnicodeDecodeError). vm_compute. reflexivity.
Defined.

(** X10.  One call stores at most one record, and it stores one exactly when
    the payload decodes and the insert goes through. *)
Theorem save_data_persists_iff (w : db_world) (data : bytes) :
  (length (persisted (trace (save_data w data))) <= 1)%nat
  /\ (persisted (trace (save_data w data)) <> []
      <-> insert_ok w = true /\ exists fields, decode data = inr fields).
Proof.
  rewrite save_data_eq. unfold save_outcome, trace. cbn [fst].
  destruct (decode data) as [e|fields]; cbn.
  - split; [lia|]. split; [done|]. by intros [_ [? ?]].
  - destruct (insert_ok w); cbn; (split; [lia|]); split; try done; eauto.
    by intros [? _].
Qed.

(** ** More on [handle] *)

(** Induction over the rounds of the receive loop. *)
Lemma recv_loop_trace_ind (P : list event -> Prop) :
  P [EvRecv 1024 (inr [])] ->
  P [EvRecv 1024 (inl OSError)] ->
  (forall w x, x <> [] -> (length x <= 1024)%nat -> P (round_events w x false)) ->
  (forall w x tl, x <> [] -> (length x <= 1024)%nat -> P tl ->
                  P (round_events w x true ++ tl)) ->
  forall script, P (trace (recv_loop script)).
Proof.
  intros Heof Herr Hfail Hstep script.
  induction script as [|r rest IH]; [exact Heof|].
  destruct (r_recv r) as [d|] eqn:Hr.
  - destruct (take 1024 d) as [|c l] eqn:Ht.
    + by rewrite (recv_loop_eof _ _ _ Hr Ht).
    + rewrite (recv_loop_chunk _ _ _ Hr) by (rewrite Ht; done). rewrite Ht.
      assert (Hlen : (length (c :: l) <= 1024)%nat)
        by (rewrite <- Ht, length_take; lia).
      cbn [trace fst]. destruct (r_send_ok r).
      * by apply Hstep.
      * rewrite app_nil_r. by apply Hfail.
  - by rewrite (recv_loop_raises _ _ Hr).
Qed.

Lemma handle_trace script :
  trace (handle script)
  = EvPrint ConnectionEstablished :: trace (recv_loop script)
      ++ handle_ending (result (recv_loop script)).
Proof. by rewrite handle_eq. Qed.

Lemma round_events_loop_event w x ok :
  Forall (fun ev => loop_event ev = true) (round_events w x ok).
Proof.
  unfold round_events. rewrite save_data_eq. unfold save_outcome. cbn [trace fst].
  destruct (decode x); repeat constructor.
Qed.

Lemma recv_loop_events script :
  Forall (fun ev => loop_event ev = true) (trace (recv_loop script)).
Proof.
  apply recv_loop_trace_ind; try (by repeat constructor).
  - intros. apply round_events_loop_event.
  - intros. apply Forall_app. split; [apply round_events_loop_event | done].
Qed.

(** X11.  [handle] never raises and closes the connection's socket exactly
    once, as its very last step, however the loop ends. *)
Theorem handle_always_closes (script : list round) :
  result (handle script) = inr tt
  /\ last (trace (handle script)) = Some EvSockClose
  /\ count_event is_sock_close (trace (handle script)) = 1%nat.
Proof.
  rewrite handle_eq. unfold result, trace. cbn [fst snd]. split; [done|].
  pose proof (recv_loop_events script) as Hev.
  assert (Hend : exists ev, handle_ending (recv_loop script).2 = [ev; EvSockClose]
                            /\ is_sock_close ev = false).
  { unfold handle_ending. destruct (recv_loop script).2; by eexists. }
  destruct Hend as (ev & -> & Hev'). split.
  - rewrite app_comm_cons, (assoc_L (++) _ [ev] [EvSockClose]).
    apply last_snoc.
  - unfold count_event. cbn. rewrite List.filter_app. cbn. rewrite Hev'. cbn.
    rewrite length_app. cbn.
    assert (Hnone : List.filter is_sock_close (recv_loop script).1 = []).
    { unfold trace in Hev. induction Hev as [|e t He _ IH]; [done|].
      cbn. rewrite IH. by destruct e. }
    by rewrite Hnone.
Qed.

Lemma round_events_chunks w x ok :
  x <> [] ->
  sent_chunks (round_events w x ok) = [x]
  /\ received_chunks (round_events w x ok) = [x].
Proof.
  intros Hx. unfold round_events. rewrite save_data_eq. unfold save_outcome.
  cbn [trace fst]. destruct x as [|c x]; [done|].
  destruct (decode (c :: x)); done.
Qed.

(** X12.  Over a whole connection the chunks passed to [send] are the
    non-empty chunks received, in the same order, one echo per chunk. *)
Theorem handle_echoes_in_order (script : list round) :
  sent_chunks (trace (handle script)) = received_chunks (trace (handle script)).
Proof.
  rewrite handle_trace. unfold sent_chunks, received_chunks. cbn [omap list_omap].
  rewrite !omap_app.
  assert (Hend : forall r, omap (fun ev => match ev with EvSend d _ => Some d | _ => None end)
                             (handle_ending r) = []
                           /\ omap (fun ev => match ev with
                                              | EvRecv _ (inr (c :: x)) => Some (c :: x)
                                              | _ => None
                                              end) (handle_ending r) = []).
  { by intros [e|[]]. }
  destruct (Hend (result (recv_loop script))) as [-> ->]. f_equal.
  apply (recv_loop_trace_ind
           (fun t => sent_chunks t = received_chunks t)); try done.
  - intros w x Hx _. destruct (round_events_chunks w x false Hx) as [-> ->]. done.
  - intros w x tl Hx _ IH. unfold sent_chunks, received_chunks in *.
    rewrite !omap_app.
    destruct (round_events_chunks w x true Hx) as [H1 H2].
    unfold sent_chunks, received_chunks in *. by rewrite H1, H2, IH.
Qed.

(** X13.  A failed read, an empty read or a failed echo ends the
    connection: whatever the peer would have sent afterwards is never
    read. *)
Theorem handle_stops_reading (r : round) (rest rest' : list round) :
  round_stops r ->
  handle (r :: rest) = handle (r :: rest').
Proof.
  intros Hstop. rewrite !handle_eq.
  assert (Hloop : recv_loop (r :: rest) = recv_loop (r :: rest')).
  { destruct Hstop as [Hr | [(d & Hr & Ht) | Hs]].
    - by rewrite !(recv_loop_raises _ _ Hr).
    - by rewrite !(recv_loop_eof _ _ _ Hr Ht).
    - destruct (r_recv r) as [d|] eqn:Hr.
      + destruct (take 1024 d) as [|c l] eqn:Ht.
        * by rewrite !(recv_loop_eof _ _ _ Hr Ht).
        * rewrite !(recv_loop_chunk _ _ _ Hr) by (rewrite Ht; done).
          by rewrite Hs.
      + by rewrite !(recv_loop_raises _ _ Hr). }
  by rewrite Hloop.
Qed.

Lemma handle_stops_reading_witness :
  handle [{| r_recv := RecvBytes (bstr "a=b");
             r_db := {| insert_ok := true; now := ustr "T" |};
             r_send_ok := false |};
          {| r_recv := RecvBytes (bstr "c=d");
             r_db := {| insert_ok := true; now := ustr "T" |};
             r_send_ok := true |}]
  = handle [{| r_recv := RecvBytes (bstr "a=b");
               r_db := {| insert_ok := true; now := ustr "T" |};
               r_send_ok := false |}].
Proof.
  apply handle_stops_reading. right. right. reflexivity.
Defined.

(** How the loop ends shows in its trace: it returns after an empty read,
    and it raises [OSError] after a read or an echo that failed. *)
Lemma recv_loop_outcome script :
  (result (recv_loop script) = inr tt
   /\ EvRecv 1024 (inr []) ∈ trace (recv_loop script)
   /\ (EvRecv 1024 (inl OSError) ∉ trace (recv_loop script))
   /\ (forall x, EvSend x false ∉ trace (recv_loop script)))
  \/ (result (recv_loop script) = inl OSError
      /\ (EvRecv 1024 (inr []) ∉ trace (recv_loop script))
      /\ (EvRecv 1024 (inl OSError) ∈ trace (recv_loop script)
          \/ exists x, EvSend x false ∈ trace (recv_loop script))).
Proof.
  assert (Hround : forall w x ok ev,
            x <> [] -> ev ∈ round_events w x ok ->
            ev <> EvRecv 1024 (inr []) /\ ev <> EvRecv 1024 (inl OSError)
            /\ (forall y, ev = EvSend y false -> ok = false)).
  { intros w x ok ev Hx Hin. unfold round_events in Hin.
    apply elem_of_cons in Hin as [-> | Hin].
    { split; [intros [= ->]; done|]. split; [done|]. intros y [=]. }
    apply elem_of_app in Hin as [Hin | Hin].
    { apply save_data_no_sock_io in Hin.
      split; [intros ->; cbn in Hin; done|].
      split; [intros ->; cbn in Hin; done|]. intros y ->. cbn in Hin. done. }
    apply elem_of_cons in Hin as [-> | Hin]; [done|].
    apply elem_of_cons in Hin as [-> | Hin]; [|by apply elem_of_nil in Hin].
    repeat split; try done. by intros y [= _ <-]. }
  induction script as [|r rest IH].
  - left. rewrite recv_loop_nil. cbn. repeat split.
    + apply list_elem_of_here.
    + intros Hin. apply list_elem_of_singleton in Hin. done.
    + intros x Hin. apply list_elem_of_singleton in Hin. done.
  - destruct (r_recv r) as [d|] eqn:Hr.
    + destruct (take 1024 d) as [|c l] eqn:Ht.
      * left. rewrite (recv_loop_eof _ _ _ Hr Ht). cbn. repeat split.
        -- apply list_elem_of_here.
        -- intros Hin. apply list_elem_of_singleton in Hin. done.
        -- intros x Hin. apply list_elem_of_singleton in Hin. done.
      * rewrite (recv_loop_chunk _ _ _ Hr) by (rewrite Ht; done). rewrite Ht.
        unfold result, trace in *. cbn [fst snd].
        assert (Hx : c :: l <> []) by done.
        destruct (r_send_ok r) eqn:Hs.
        -- destruct IH as [(Hres & Heof & Herr & Hsend) | (Hres & Heof & Hcause)];
             [left | right]; (split; [done|]).
           ++ split; [apply elem_of_app; by right|]. split.
              ** intros Hin. apply elem_of_app in Hin as [Hin | Hin]; [|done].
                 by destruct (Hround _ _ _ _ Hx Hin) as (_ & ? & _).
              ** intros x Hin. apply elem_of_app in Hin as [Hin | Hin];
                   [|by eapply Hsend].
                 destruct (Hround _ _ _ _ Hx Hin) as (_ & _ & Hf).
                 by specialize (Hf x eq_refl).
           ++ split.
              ** intros Hin. apply elem_of_app in Hin as [Hin | Hin]; [|done].
                 by destruct (Hround _ _ _ _ Hx Hin) as (? & _).
              ** destruct Hcause as [Hc | [x Hc]]; [left | right; exists x];
                   apply elem_of_app; by right.
        -- right. rewrite app_nil_r. split; [done|]. split.
           ++ intros Hin. by destruct (Hround _ _ _ _ Hx Hin) as (? & _).
           ++ right. exists (c :: l). unfold round_events.
              apply list_elem_of_further, elem_of_app. right.
              apply list_elem_of_further, list_elem_of_here.
    + right. rewrite (recv_loop_raises _ _ Hr). cbn. split; [done|]. split.
      * intros Hin. apply list_elem_of_singleton in Hin. done.
      * left. apply list_elem_of_here.
Qed.

(** X14.  How a connection ends is decided by what happened on its
    socket.  [handle] logs "Unexpected error on socket server receive"
    exactly when a read or an echo raised, and the error is then the
    [OSError] of that call; it prints "Socket connection closed" exactly
    when a read came back empty; and exactly one of the two happens. *)
Theorem handle_ending_cases (script : list round) :
  let t := trace (handle script) in
  (EvLogError (UnexpectedReceive OSError) ∈ t
   <-> EvRecv 1024 (inl OSError) ∈ t \/ exists x, EvSend x false ∈ t)
  /\ (EvPrint SocketConnectionClosed ∈ t <-> EvRecv 1024 (inr []) ∈ t)
  /\ (EvLogError (UnexpectedReceive OSError) ∈ t
      <-> EvPrint SocketConnectionClosed ∉ t)
  /\ (forall e, EvLogError (UnexpectedReceive e) ∈ t -> e = OSError).
Proof.
  cbv zeta. rewrite handle_trace.
  pose proof (recv_loop_events script) as Hev. rewrite Forall_forall in Hev.
  assert (Hlog : forall e, EvLogError (UnexpectedReceive e) ∉ trace (recv_loop script)).
  { intros e H. by apply Hev in H. }
  assert (Hpr : EvPrint SocketConnectionClosed ∉ trace (recv_loop script)).
  { intros H. by apply Hev in H. }
  destruct (recv_loop_outcome script)
    as [(Hres & Heof & Herr & Hsend) | (Hres & Heof & Hcause)];
    rewrite Hres; cbn [handle_ending];
    repeat setoid_rewrite elem_of_cons; repeat setoid_rewrite elem_of_app;
    repeat setoid_rewrite elem_of_cons; repeat setoid_rewrite elem_of_nil.
  - repeat split.
    + intros [?|[H|[?|[?|?]]]]; try done. by apply Hlog in H.
    + intros [[?|[?|[?|[?|?]]]] | [x [?|[H|[?|[?|?]]]]]]; try done.
      by apply Hsend in H.
    + intros _. right. by left.
    + intros _. right. right. by left.
    + intros [?|[H|[?|[?|?]]]]; try done. by apply Hlog in H.
    + intros H. exfalso. apply H. right. right. by left.
    + intros e [?|[H|[?|[?|?]]]]; try done. by apply Hlog in H.
  - repeat split.
    + intros _. destruct Hcause as [Hc | [x Hc]];
        [left | right; exists x]; right; by left.
    + intros _. right. right. by left.
    + intros [?|[H|[?|[?|?]]]]; done.
    + intros [?|[H|[?|[?|?]]]]; done.
    + intros _ [?|[H|[?|[?|?]]]]; done.
    + intros _. right. right. by left.
    + intros e [?|[H|[H|[?|?]]]]; try done.
      * by apply Hlog in H.
      * by simplify_eq.
Qed.

Lemma round_events_within w x ok :
  x <> [] -> (length x <= 1024)%nat ->
  Forall (chunk_within 1024) (round_events w x ok).
Proof.
  intros Hx Hlen. unfold round_events. rewrite save_data_eq. unfold save_outcome.
  cbn [trace fst].
  assert (0 < length x)%nat by (destruct x; [done | cbn; lia]).
  destruct (decode x);
    repeat (apply Forall_cons_2;
            [cbn; first [done | lia | (split; [done | lia])]|]);
    apply Forall_nil_2.
Qed.

(** X15.  Every read on a connection asks for at most 1024 bytes, and no
    chunk that is received or echoed is longer than that; an echo is never
    empty. *)
Theorem handle_chunks_within_buffer (script : list round) :
  Forall (chunk_within 1024) (trace (handle script)).
Proof.
  rewrite handle_trace. apply Forall_cons. split; [done|].
  apply Forall_app. split.
  - apply recv_loop_trace_ind.
    + apply Forall_cons_2; [cbn; split; [done | lia] | apply Forall_nil_2].
    + apply Forall_cons_2; [done | apply Forall_nil_2].
    + intros. by apply round_events_within.
    + intros. apply Forall_app. split; [by apply round_events_within | done].
  - unfold handle_ending.
    destruct (result (recv_loop script));
      repeat (apply Forall_cons_2; [done|]); apply Forall_nil_2.
Qed.

Lemma round_events_counts w x ok :
  x <> [] ->
  count_event is_client_open (round_events w x ok) = 1%nat
  /\ count_event is_client_close (round_events w x ok) = 1%nat
  /\ count_event is_send (round_events w x ok) = 1%nat.
Proof.
  intros Hx. unfold round_events, count_event. rewrite save_data_eq.
  unfold save_outcome. cbn [trace fst]. destruct (decode x); done.
Qed.

(** X16.  On a connection [save_data] runs once per non-empty chunk: the
    database client is opened, and closed, as many times as chunks are
    received, and as many times as echoes are attempted. *)
Theorem handle_one_save_per_chunk (script : list round) :
  let t := trace (handle script) in
  count_event is_client_open t = length (received_chunks t)
  /\ count_event is_client_close t = length (received_chunks t)
  /\ count_event is_send t = length (received_chunks t).
Proof.
  cbv zeta. rewrite handle_trace.
  set (P := fun t => count_event is_client_open t = length (received_chunks t)
                     /\ count_event is_client_close t = length (received_chunks t)
                     /\ count_event is_send t = length (received_chunks t)).
  assert (Happ : forall t1 t2, P t1 -> P t2 -> P (t1 ++ t2)).
  { intros t1 t2 (A1 & A2 & A3) (B1 & B2 & B3). unfold P, count_event, received_chunks in *.
    rewrite !List.filter_app, !omap_app, !length_app. lia. }
  assert (Hround : forall w x ok, x <> [] -> P (round_events w x ok)).
  { intros w x ok Hx. unfold P.
    destruct (round_events_counts w x ok Hx) as (-> & -> & ->).
    destruct (round_events_chunks w x ok Hx) as [_ ->]. done. }
  change (P (EvPrint ConnectionEstablished
               :: trace (recv_loop script)
                  ++ handle_ending (result (recv_loop script)))).
  change (P ([EvPrint ConnectionEstablished]
               ++ trace (recv_loop script)
                  ++ handle_ending (result (recv_loop script)))).
  apply Happ; [done|]. apply Happ.
  - apply recv_loop_trace_ind; try done.
    + intros. by apply Hround.
    + intros. apply Happ; [by apply Hround | done].
  - unfold handle_ending. by destruct (result (recv_loop script)).
Qed.

Lemma round_events_persisted w x ok :
  Forall (fun doc : gmap str str => doc !! ustr "date" = Some (now w))
         (persisted (round_events w x ok)).
Proof.
  unfold round_events. rewrite save_data_eq. unfold save_outcome. cbn [trace fst].
  destruct (decode x) as [e|fields]; cbn; [constructor|].
  destruct (insert_ok w); cbn; repeat constructor. apply lookup_insert_eq.
Qed.

(** X17.  Every record stored while a connection is served carries a [date]
    field, and no more records are stored than chunks were received. *)
Theorem handle_persisted_records (script : list round) :
  Forall (fun doc : gmap str str => is_Some (doc !! ustr "date"))
         (persisted (trace (handle script)))
  /\ (length (persisted (trace (handle script)))
      <= length (received_chunks (trace (handle script))))%nat.
Proof.
  rewrite handle_trace.
  set (P := fun t => Forall (fun doc : gmap str str => is_Some (doc !! ustr "date"))
                            (persisted t)
                     /\ (length (persisted t) <= length (received_chunks t))%nat).
  assert (Happ : forall t1 t2, P t1 -> P t2 -> P (t1 ++ t2)).
  { intros t1 t2 [A1 A2] [B1 B2]. unfold P, persisted, received_chunks in *.
    rewrite !omap_app, !length_app. split; [by apply Forall_app | lia]. }
  assert (Hround : forall w x ok, x <> [] -> P (round_events w x ok)).
  { intros w x ok Hx. unfold P. split.
    - eapply Forall_impl; [apply round_events_persisted|]. cbn. eauto.
    - destruct (round_events_chunks w x ok Hx) as [_ ->].
      unfold round_events. rewrite save_data_eq. unfold save_outcome.
      cbn [trace fst]. destruct (decode x); cbn; [lia|].
      destruct (insert_ok w); cbn; lia. }
  change (P ([EvPrint ConnectionEstablished]
               ++ trace (recv_loop script)
                  ++ handle_ending (result (recv_loop script)))).
  apply Happ; [by split; [constructor | cbn; lia]|]. apply Happ.
  - apply recv_loop_trace_ind.
    + split; [constructor | cbn; lia].
    + split; [constructor | cbn; lia].
    + intros. by apply Hround.
    + intros. apply Happ; [by apply Hround | done].
  - unfold handle_ending.
    destruct (result (recv_loop script)); (split; [constructor | cbn; lia]).
Qed.

(** ** More on the relay client and [do_POST] *)

(** X18.  [send_data_to_socket] never raises.  It logs its error, once,
    exactly when a step failed: the socket could not be created or
    connected, the send or the read raised, or the acknowledgment is not
    valid UTF-8. *)
Theorem send_data_to_socket_logs_iff_failed (w : relay_world) (data : bytes) :
  result (send_data_to_socket w data) = inr tt
  /\ (length (logged_errors (trace (send_data_to_socket w data))) <= 1)%nat
  /\ (logged_errors (trace (send_data_to_socket w data)) = []
      <-> socket_ok w = true /\ connect_ok w = true /\ send_ok w = true
          /\ exists avail text,
               recv_res w = RecvBytes avail
               /\ bytes_decode (take 1024 avail) = inr text).
Proof.
  split; [apply send_data_to_socket_returns|].
  unfold send_data_to_socket.
  destruct w as [[|] [|] [|] [d|]]; cbn;
    try (split; [lia|]; split; [done|]; intros (? & ? & ? & ? & ? & ? & ?); done).
  destruct (bytes_decode (take 1024 d)) as [e|text] eqn:Hd; cbn.
  - split; [lia|]. split; [done|].
    intros (_ & _ & _ & avail & text & [= <-] & Ht). congruence.
  - split; [lia|]. split; [|done]. intros _. repeat split. eauto.
Qed.

Lemma send_data_to_socket_sent (w : relay_world) (data : bytes) :
  sent_chunks (trace (send_data_to_socket w data))
  = (if socket_ok w && connect_ok w then [data] else []).
Proof.
  unfold send_data_to_socket.
  destruct w as [[|] [|] [|] [d|]]; cbn; try done.
  destruct (bytes_decode (take 1024 d)); done.
Qed.

(** X19.  The payload is handed to [send] at most once, and only after the
    socket was created and connected; the single read happens only after a
    successful send.  A failed connect therefore sends nothing. *)
Theorem send_data_to_socket_steps (w : relay_world) (data : bytes) :
  sent_chunks (trace (send_data_to_socket w data))
  = (if socket_ok w && connect_ok w then [data] else [])
  /\ count_event is_recv (trace (send_data_to_socket w data))
     = b2n (socket_ok w && connect_ok w && send_ok w).
Proof.
  split; [apply send_data_to_socket_sent|].
  unfold send_data_to_socket.
  destruct w as [[|] [|] [|] [d|]]; cbn; try done.
  destruct (bytes_decode (take 1024 d)); done.
Qed.

Lemma do_POST_trace (w : relay_world) (req : request) (n : Z) :
  py_int (headers_get "Content-Length" (req_headers req)) = inr n ->
  readable_length n ->
  let data := if (n =? -1)%Z then req_body req
              else take (Z.to_nat n) (req_body req) in
  trace (do_POST w true req)
  = EvRead n data :: trace (send_data_to_socket w data)
      ++ [EvSendResponse 302; EvSendHeader "Location" "/"; EvEndHeaders].
Proof.
  intros Hint Hn. cbv zeta. unfold do_POST. rewrite Hint.
  unfold lift, emit, mbind, M_bind, mret, M_ret. cbv beta iota zeta.
  rewrite (rfile_read_returns _ _ Hn). cbv beta iota zeta.
  generalize (if (n =? -1)%Z then req_body req
              else take (Z.to_nat n) (req_body req)) as data. intros data.
  pose proof (send_data_to_socket_returns w data) as Hret.
  unfold result, trace in *.
  destruct (send_data_to_socket w data) as [t r]. cbn in Hret. subst r.
  reflexivity.
Qed.

(** X20.  A POST whose [Content-Length] is missing or is not an integer
    literal [int] accepts raises ([TypeError] for a missing header,
    [ValueError] otherwise) before anything is read, relayed or
    answered. *)
Theorem do_POST_rejects_bad_length (w : relay_world) (alloc_ok : bool)
    (req : request) (e : exn) :
  py_int (headers_get "Content-Length" (req_headers req)) = inl e ->
  do_POST w alloc_ok req = ([], inl e)
  /\ (headers_get "Content-Length" (req_headers req) = None
      -> e = TypeError_int_none)
  /\ (is_Some (headers_get "Content-Length" (req_headers req))
      -> e = ValueError_int).
Proof.
  intros Hint. split.
  - unfold do_POST. by rewrite Hint.
  - unfold py_int in Hint.
    destruct (headers_get "Content-Length" (req_headers req)) as [v|].
    + split; [done|]. intros _. by repeat (case_match; simplify_eq).
    + split; [by simplify_eq | by intros [? ?]].
Qed.

Lemma do_POST_rejects_bad_length_witness :
  do_POST {| socket_ok := true; connect_ok := true; send_ok := true;
             recv_res := RecvBytes (bstr "a=b") |}
          true
          {| req_path := "/message";
             req_headers := [("Content-Length", "3 bytes")]%string;
             req_body := bstr "a=b" |}
  = ([], inl ValueError_int).
Proof.
  apply (do_POST_rejects_bad_length _ _ _ ValueError_int). vm_compute. reflexivity.
Defined.

(** X21.  With a [Content-Length] from 0 up to the largest size of a
    [bytes] object, and a read whose result can be allocated, what a POST
    relays is the first [Content-Length] bytes of the body and nothing
    else; anything the body holds beyond that is dropped, and a zero
    length relays the empty payload. *)
Theorem do_POST_relays_body_prefix (w : relay_world) (req : request) (n : Z) :
  py_int (headers_get "Content-Length" (req_headers req)) = inr n ->
  (0 <= n <= PY_SSIZE_T_MAX - BYTES_OVERHEAD)%Z ->
  sent_chunks (trace (do_POST w true req))
  = (if socket_ok w && connect_ok w
     then [take (Z.to_nat n) (req_body req)] else [])
  /\ Forall (fun d => (length d <= Z.to_nat n)%nat)
            (sent_chunks (trace (do_POST w true req))).
Proof.
  intros Hint Hn.
  assert (Hr : readable_length n) by (unfold readable_length; lia).
  rewrite (do_POST_trace _ _ _ Hint Hr). cbv zeta.
  replace (n =? -1)%Z with false by (symmetry; apply Z.eqb_neq; lia).
  unfold sent_chunks. cbn [omap list_omap]. rewrite omap_app. cbn.
  rewrite app_nil_r.
  pose proof (send_data_to_socket_sent w (take (Z.to_nat n) (req_body req)))
    as Hs. unfold sent_chunks in Hs. rewrite Hs.
  split; [done|].
  destruct (socket_ok w && connect_ok w); repeat constructor.
  rewrite length_take. lia.
Qed.

Lemma do_POST_relays_body_prefix_witness :
  sent_chunks
    (trace (do_POST {| socket_ok := true; connect_ok := true; send_ok := true;
                       recv_res := RecvBytes (bstr "a=b") |}
                    true
                    {| req_path := "/message";
                       req_headers := [("Content-Length", "3")]%string;
                       req_body := bstr "a=b&c=d" |}))
  = [bstr "a=b"].
Proof.
  apply (do_POST_relays_body_prefix
           {| socket_ok := true; connect_ok := true; send_ok := true;
              recv_res := RecvBytes (bstr "a=b") |}
           {| req_path := "/message";
              req_headers := [("Content-Length", "3")]%string;
              req_body := bstr "a=b&c=d" |} 3%Z).
  - vm_compute. reflexivity.
  - unfold PY_SSIZE_T_MAX, BYTES_OVERHEAD. lia.
Defined.

(** X28.  A POST whose [Content-Length] is an integer that [rfile.read]
    does not accept (below -1, not index-sized, or larger than a [bytes]
    object can be), or whose read cannot allocate its result, raises
    [ValueError], [OverflowError] or [MemoryError] before anything is
    relayed or answered. *)
Theorem do_POST_unreadable_length (w : relay_world) (alloc_ok : bool)
    (req : request) (n : Z) :
  py_int (headers_get "Content-Length" (req_headers req)) = inr n ->
  alloc_ok = false \/ ~ readable_length n ->
  exists e,
    do_POST w alloc_ok req = ([], inl e)
    /\ (e = OverflowError \/ e = ValueError_read_length \/ e = MemoryError).
Proof.
  intros Hint Hbad.
  destruct (rfile_read_raises alloc_ok n (req_body req) Hbad) as (e & He & Hkind).
  exists e. split; [|done]. unfold do_POST. rewrite Hint.
  unfold lift, mbind, M_bind. cbv beta iota zeta. by rewrite He.
Qed.

Lemma do_POST_unreadable_length_witness :
  exists e,
    do_POST {| socket_ok := true; connect_ok := true; send_ok := true;
               recv_res := RecvBytes (bstr "a=b") |}
            true
            {| req_path := "/message";
               req_headers := [("Content-Length", "9223372036854775808")]%string;
               req_body := bstr "a=b" |}
    = ([], inl e)
    /\ (e = OverflowError \/ e = ValueError_read_length \/ e = MemoryError).
Proof.
  apply (do_POST_unreadable_length _ _ _ 9223372036854775808%Z).
  - vm_compute. reflexivity.
  - right. unfold readable_length, PY_SSIZE_T_MAX, BYTES_OVERHEAD. lia.
Defined.

(** ** [do_GET] *)

Section GetProperties.
Variable urlparse_path : string -> string.
Variable guess_type : string -> option string * option string.
Variable path_exists : string -> bool.
Variable read_file : string -> option bytes.

Lemma send_html_file_shape filename status :
  send_html_file read_file filename status
  = ([EvSendResponse status; EvSendHeader "Content-type" "text/html";
      EvEndHeaders]
       ++ match read_file ("./" ++ hppt_folder ++ "/" ++ filename)%string with
          | Some c => [EvWrite c]
          | None => []
          end,
     match read_file ("./" ++ hppt_folder ++ "/" ++ filename)%string with
     | Some _ => inr tt
     | None => inl FileNotFoundError
     end).
Proof. unfold send_html_file. by destruct (read_file _). Qed.

Lemma send_static_shape path :
  send_static guess_type read_file path
  = ([EvSendResponse 200;
      EvSendHeader "Content-type" (py_str (guess_type path).1); EvEndHeaders]
       ++ match read_file ("./" ++ hppt_folder ++ path)%string with
          | Some c => [EvWrite c]
          | None => []
          end,
     match read_file ("./" ++ hppt_folder ++ path)%string with
     | Some _ => inr tt
     | None => inl FileNotFoundError
     end).
Proof. unfold send_static. by destruct (read_file _). Qed.



(** X24.  The two pages are served as [text/html] from their own files:
    for [/] and [/message] neither the existence check nor the guessed
    type plays a part. *)
Theorem do_GET_pages (path : string)
    (guess_type' : string -> option string * option string)
    (path_exists' : string -> bool) :
  urlparse_path path = "/"%string \/ urlparse_path path = "/message"%string ->
  do_GET urlparse_path guess_type path_exists read_file path
  = do_GET urlparse_path guess_type' path_exists' read_file path
  /\ EvSendHeader "Content-type" "text/html"
       ∈ trace (do_GET urlparse_path guess_type path_exists read_file path)
  /\ EvSendResponse 200
       ∈ trace (do_GET urlparse_path guess_type path_exists read_file path).
Proof.
  intros Hp. unfold do_GET. cbv zeta.
  assert (Hpage : exists file,
            forall (gt : string -> option string * option string)
                   (pe : string -> bool),
              (if String.eqb (urlparse_path path) "/"
               then send_html_file read_file "index.html" 200
               else if String.eqb (urlparse_path path) "/message"
                    then send_html_file read_file "message.html" 200
                    else if pe ("./" ++ hppt_folder ++ "/"
                                  ++ drop_first (urlparse_path path))%string
                         then send_static gt read_file path
                         else send_html_file read_file "error.html" 404)
              = send_html_file read_file file 200).
  { destruct Hp as [Hp | Hp]; rewrite Hp; eexists; intros gt pe; reflexivity. }
  destruct Hpage as [file Hpage]. rewrite !Hpage, send_html_file_shape.
  cbn [trace fst]. split; [done|]. split.
  - apply list_elem_of_further, list_elem_of_here.
  - apply list_elem_of_here.
Qed.

(** X25.  A static file is looked up under the parsed path but opened under
    the raw request path: when the two differ (a query string, say) and
    no file has the raw name, the handler has already sent status 200 and
    the headers when the open fails. *)
Theorem do_GET_static_raw_path (path : string) :
  urlparse_path path <> "/"%string ->
  urlparse_path path <> "/message"%string ->
  path_exists ("./" ++ hppt_folder ++ "/" ++ drop_first (urlparse_path path))%string
  = true ->
  read_file ("./" ++ hppt_folder ++ path)%string = None ->
  do_GET urlparse_path guess_type path_exists read_file path
  = ([EvSendResponse 200;
      EvSendHeader "Content-type" (py_str (guess_type path).1); EvEndHeaders],
     inl FileNotFoundError).
Proof.
  intros H1 H2 He Hr. unfold do_GET.
  apply String.eqb_neq in H1, H2. rewrite H1, H2, He, send_static_shape, Hr.
  reflexivity.
Qed.

End GetProperties.

Lemma do_GET_pages_witness :
  EvSendHeader "Content-type" "text/html"
    ∈ trace (do_GET urlparse_path_sample guess_type_sample (fun _ => false)
               (fun _ => Some (bstr "<html>")) "/message?x=1#top").
Proof.
  apply (do_GET_pages urlparse_path_sample guess_type_sample (fun _ => false)
           (fun _ => Some (bstr "<html>")) "/message?x=1#top"
           guess_type_sample (fun _ => true)).
  right. vm_compute. reflexivity.
Defined.

Lemma do_GET_static_raw_path_witness :
  do_GET urlparse_path_sample guess_type_sample
    (fun p => String.eqb p "./src/style.css")
    (fun p => if String.eqb p "./src/style.css" then Some (bstr "body{}") else None)
    "/style.css?v=1"
  = ([EvSendResponse 200; EvSendHeader "Content-type" "None"; EvEndHeaders],
     inl FileNotFoundError).
Proof.
  apply (do_GET_static_raw_path urlparse_path_sample guess_type_sample
           (fun p => String.eqb p "./src/style.css")
           (fun p => if String.eqb p "./src/style.css"
                     then Some (bstr "body{}") else None)
           "/style.css?v=1").
  - vm_compute. discriminate.
  - vm_compute. discriminate.
  - vm_compute. reflexivity.
  - vm_compute. reflexivity.
Defined.

(** ** Server life cycles *)

(** X26.  [run_http_server] closes the server, and returns normally,
    exactly when the server object could be created.  When the constructor
    raises, the error is logged and the [finally] clause then raises
    [UnboundLocalError], since [http] was never bound. *)
Theorem run_http_server_close_iff_bound (bind_ok : bool) (ending : loop_end) :
  let r := run_http_server bind_ok ending in
  (SrvServerClose ∈ r.1 <-> bind_ok = true)
  /\ (r.2 = None <-> bind_ok = true)
  /\ (bind_ok = false ->
      r.2 = Some UnboundLocalError /\ SrvLogError ∈ r.1 /\ SrvServeForever ∉ r.1)
  /\ (bind_ok = true ->
      last r.1 = Some SrvServerClose
      /\ (SrvLogInfoShutdown ∈ r.1 <-> ending = EndKeyboardInterrupt)).
Proof.
  cbv zeta. destruct bind_ok, ending; cbn;
    rewrite ?elem_of_cons, ?elem_of_nil; repeat split; try done;
    try (intros; by repeat (first [by left | right]));
    try (intros [?|[?|[?|[?|?]]]]; done);
    try (intros [?|[?|?]]; done).
Qed.

Lemma accept_loop_submitted conns :
  submitted (accept_loop conns) = conns
  /\ List.filter is_srv_sock_close (accept_loop conns) = [].
Proof.
  induction conns as [|c rest [IH1 IH2]]; [done|].
  cbn. unfold submitted in *. by rewrite IH1, IH2.
Qed.

(** X27.  Once the listening socket is bound, [run_socket_server] submits
    every accepted connection to the pool exactly once, in the order of
    acceptance, closes the listening socket exactly once however the loop
    ends, and returns normally only after a [KeyboardInterrupt]; any other
    exception from [accept] propagates. *)
Theorem run_socket_server_submits_accepted (conns : list nat) (ending : loop_end) :
  let r := run_socket_server true conns ending in
  submitted r.1 = conns
  /\ length (List.filter is_srv_sock_close r.1) = 1%nat
  /\ (r.2 = None <-> ending = EndKeyboardInterrupt)
  /\ (SrvPrintDestroy ∈ r.1 <-> ending = EndKeyboardInterrupt).
Proof.
  cbv zeta. destruct (accept_loop_submitted conns) as [Hs Hc].
  unfold run_socket_server, submitted in *. cbn [fst snd].
  assert (Hin : SrvPrintDestroy ∉ accept_loop conns).
  { clear. induction conns as [|c rest IH]; cbn.
    - intros Hin. apply list_elem_of_singleton in Hin. done.
    - rewrite !not_elem_of_cons. done. }
  destruct ending; cbn [raised_by fst snd];
    rewrite !omap_app, !List.filter_app, Hs, Hc; cbn;
    rewrite ?app_nil_r; repeat split; try done.
  - intros _. do 4 apply list_elem_of_further.
    rewrite elem_of_app. right. apply list_elem_of_here.
  - rewrite !elem_of_cons, elem_of_app, !elem_of_cons, elem_of_nil.
    intros [?|[?|[?|[?|[?|[?|[?|?]]]]]]]; done.
Qed.
